(** * fletaio/solidity: the state adapter and the contract-creation pipeline

    A shallow embedding of [statedb.go], the balance transfer primitives
    and [tx_create_contract.go].  Go code that mutates the ledger context
    and may panic becomes a state-and-panic monad over a model of the
    context; the collaborators that live outside the package (digest,
    address derivation, virtual machine, wire helpers) are section
    variables. *)

From Stdlib Require Import ZArith NArith List Lia.
From Stdlib Require Import Strings.Byte DecimalString.
From stdpp Require Import base option gmap strings list.

Local Open Scope Z_scope.

(** ** Bytes *)

Abbreviation bytes := (list Byte.byte).

#[global] Instance byte_eq_dec : EqDecision Byte.byte := Byte.byte_eq_dec.

#[global] Instance byte_countable : Countable Byte.byte :=
  inj_countable Byte.to_N Byte.of_N Byte.of_to_N.

(** Go's [byte(v)]: the low eight bits. *)
Definition byte_of_Z (v : Z) : Byte.byte :=
  default Byte.x00 (Byte.of_N (Z.to_N (Z.land v 255))).

Definition Z_of_byte (b : Byte.byte) : Z := Z.of_N (Byte.to_N b).

(** [binary.LittleEndian.PutUint32(bs, v)] on a fresh 4-byte slice. *)
Definition PutUint32 (v : Z) : bytes :=
  [ byte_of_Z v; byte_of_Z (Z.shiftr v 8);
    byte_of_Z (Z.shiftr v 16); byte_of_Z (Z.shiftr v 24) ].

(** [binary.LittleEndian.Uint32(bs)] on a 4-byte slice. *)
Definition Uint32 (bs : bytes) : Z :=
  match bs with
  | [b0; b1; b2; b3] =>
      Z.lor (Z_of_byte b0)
        (Z.lor (Z.shiftl (Z_of_byte b1) 8)
           (Z.lor (Z.shiftl (Z_of_byte b2) 16) (Z.shiftl (Z_of_byte b3) 24)))
  | _ => 0
  end.

(** The conversion [uint32(n)] of a Go [int]. *)
Definition uint32 (n : Z) : Z := n mod 2 ^ 32.

(** [x + 1] on a [uint64]. *)
Definition uint64_succ (x : N) : N := ((x + 1) mod 2 ^ 64)%N.

(** Go's [copy(dst, src)]: the first [min (len dst) (len src)] bytes of
    [dst] are overwritten. *)
Definition copy (dst src : bytes) : bytes :=
  take (length dst) src ++ drop (length src) dst.

(** ** Basic ledger types *)

(** [common.Address], [hash.Hash256] and [common.PublicHash] are fixed-size
    byte arrays. *)
Abbreviation Address := (list Byte.byte) (only parsing).
Abbreviation Hash256 := (list Byte.byte) (only parsing).
Abbreviation PublicHash := (list Byte.byte) (only parsing).

Definition Hash256_zero : Hash256 := replicate 32 Byte.x00.

(** Modelled from the spec: [amount.Amount] is not part of the package; the
    data model calls a balance an unsigned fixed-point amount, so it is a
    natural number with [Less] and [IsZero]. *)
Abbreviation Amount := N (only parsing).
Definition Less (a b : Amount) : bool := (a <? b)%N.
Definition IsZero (a : Amount) : bool := (a =? 0)%N.

Record Coordinate := { Height : N; Index : N }.

(** ** Errors and panics *)

(** Modelled from the spec: the error values of section 7.  The first six
    belong to this package (their declarations are not among the sources),
    the next three come from the ledger, [RuntimeError] is a Go
    [runtime.Error] and [ErrOther] is any other error value. *)
Inductive error :=
| ErrInvalidSequence
| ErrInvalidSignerCount
| ErrNotAllowed
| ErrExistAddress
| ErrExistAccountName
| ErrVirtualMachinePanic
| ErrNotExistAccount
| ErrExistAccount
| ErrInsufficientBalance
| RuntimeError (msg : string)
| ErrOther (msg : string).

#[global] Instance error_eq_dec : EqDecision error.
Proof. solve_decision. Defined.

(** A Go function result [(v, err)] where [v] is meaningful only when
    [err] is nil. *)
Inductive result (A : Type) :=
| Ok (a : A)
| Err (e : error).
Arguments Ok {A} a.
Arguments Err {A} e.

(** The value handed to [panic]: an [error], or something that is not. *)
Inductive PanicValue :=
| PanicErr (e : error)
| PanicStr (s : string).

(** ** The ledger context *)

(** Modelled from the spec: the account kinds of the ledger are outside the
    package; an account has an address, a name and a balance. *)
Record Account := {
  Address_ : Address;
  Name_ : string;
  Balance_ : Amount
}.

Definition acc_Balance (acc : Account) : Amount := Balance_ acc.

(** Modelled from the spec: the debit of the underlying account reports a
    failure instead of going below zero. *)
Definition acc_SubBalance (acc : Account) (b : Amount) : result Account :=
  if Less (Balance_ acc) b then Err ErrInsufficientBalance
  else Ok {| Address_ := Address_ acc; Name_ := Name_ acc;
             Balance_ := (Balance_ acc - b)%N |}.

Definition acc_AddBalance (acc : Account) (b : Amount) : Account :=
  {| Address_ := Address_ acc; Name_ := Name_ acc;
     Balance_ := (Balance_ acc + b)%N |}.

(** [vm.Log] and the event the adapter emits for it. *)
Record Log := {
  log_Address : Address;
  log_Topics : list Hash256;
  log_Data : bytes;
  log_Removed : bool
}.

Record LogEvent := {
  ev_Coord : Coordinate;
  ev_Address : Address;
  ev_Topics : list Hash256;
  ev_Data : bytes;
  ev_Removed : bool
}.

(** Modelled from the spec: one layer of the ledger context (section 6):
    accounts by address, the per-address sequence, the per-address and
    per-key blobs, and the emitted events. *)
Record ContextData := {
  AccountMap : gmap (list Byte.byte) Account;
  SeqMap : gmap (list Byte.byte) N;
  AccountDataMap : gmap (list Byte.byte * list Byte.byte) (list Byte.byte);
  Events : list LogEvent
}.

(** Modelled from the spec: [data.Context], the journaled store.  [Top] is
    the working layer; [Stack] holds the layers saved by the open
    checkpoints, most recent first, so that the checkpoint with handle [n]
    is the [n]-th from the bottom. *)
Record Context := {
  Top : ContextData;
  Stack : list ContextData
}.

Definition with_top (f : ContextData -> ContextData) (ctx : Context) : Context :=
  {| Top := f (Top ctx); Stack := Stack ctx |}.

Definition ctx_Account (addr : Address) (ctx : Context) : result Account :=
  match AccountMap (Top ctx) !! addr with
  | Some acc => Ok acc
  | None => Err ErrNotExistAccount
  end.

(** The account object handed out by [ctx_Account addr] is a pointer into
    the working layer: a method that mutates it writes the entry of [addr]. *)
Definition ctx_store (addr : Address) (acc : Account) : Context -> Context :=
  with_top (fun d =>
    {| AccountMap := <[addr := acc]> (AccountMap d);
       SeqMap := SeqMap d; AccountDataMap := AccountDataMap d;
       Events := Events d |}).

Definition ctx_IsExistAccount (addr : Address) (ctx : Context) : result bool :=
  Ok (bool_decide (is_Some (AccountMap (Top ctx) !! addr))).

Definition ctx_IsExistAccountName (name : string) (ctx : Context) : result bool :=
  Ok (existsb (fun kv => String.eqb (Name_ kv.2) name)
        (map_to_list (AccountMap (Top ctx)))).

Definition ctx_CreateAccount (acc : Account) (ctx : Context) : result Context :=
  match AccountMap (Top ctx) !! Address_ acc with
  | Some _ => Err ErrExistAccount
  | None => Ok (ctx_store (Address_ acc) acc ctx)
  end.

Definition ctx_Seq (addr : Address) (ctx : Context) : N :=
  default 0%N (SeqMap (Top ctx) !! addr).

Definition ctx_AddSeq (addr : Address) (ctx : Context) : Context :=
  with_top (fun d =>
    {| AccountMap := AccountMap d;
       SeqMap := <[addr := uint64_succ (default 0%N (SeqMap d !! addr))]> (SeqMap d);
       AccountDataMap := AccountDataMap d; Events := Events d |}) ctx.

Definition ctx_AccountData (addr : Address) (name : bytes) (ctx : Context) : bytes :=
  default [] (AccountDataMap (Top ctx) !! (addr, name)).

Definition ctx_SetAccountData (addr : Address) (name value : bytes) : Context -> Context :=
  with_top (fun d =>
    {| AccountMap := AccountMap d; SeqMap := SeqMap d;
       AccountDataMap := <[(addr, name) := value]> (AccountDataMap d);
       Events := Events d |}).

Definition ctx_EmitEvent (e : LogEvent) : Context -> Context :=
  with_top (fun d =>
    {| AccountMap := AccountMap d; SeqMap := SeqMap d;
       AccountDataMap := AccountDataMap d; Events := Events d ++ [e] |}).

(** Checkpoints (section 3): [ctx_Snapshot] saves the working layer and
    returns the new depth as handle; [ctx_Revert n] restores the layer
    saved under handle [n] and drops every later checkpoint; [ctx_Commit n]
    keeps the working layer and drops checkpoint [n] and every later one.
    A handle that is no longer open changes nothing. *)
Definition ctx_Snapshot (ctx : Context) : nat * Context :=
  (S (length (Stack ctx)), {| Top := Top ctx; Stack := Top ctx :: Stack ctx |}).

Definition handle_open (n : nat) (ctx : Context) : bool :=
  (1 <=? n)%nat && (n <=? length (Stack ctx))%nat.

Definition ctx_Revert (n : nat) (ctx : Context) : Context :=
  if handle_open n ctx then
    match drop (length (Stack ctx) - n) (Stack ctx) with
    | saved :: below => {| Top := saved; Stack := below |}
    | [] => ctx
    end
  else ctx.

Definition ctx_Commit (n : nat) (ctx : Context) : Context :=
  if handle_open n ctx then
    {| Top := Top ctx; Stack := drop (S (length (Stack ctx) - n)) (Stack ctx) |}
  else ctx.

(** Modelled from the spec: the account and event registries construct the
    kinds this package registers. *)
Definition Accounter_NewByTypeName (t : string) : result Account :=
  if String.eqb t "solidity.ContractAccount"
  then Ok {| Address_ := []; Name_ := ""; Balance_ := 0%N |}
  else Err (ErrOther "unknown account type").

Definition Eventer_NewByTypeName (t : string) : result LogEvent :=
  if String.eqb t "solidity.Log"
  then Ok {| ev_Coord := {| Height := 0; Index := 0 |}; ev_Address := [];
             ev_Topics := []; ev_Data := []; ev_Removed := false |}
  else Err (ErrOther "unknown event type").

(** ** Execution: state passing with panics *)

Inductive Outcome (A : Type) :=
| Return (a : A) (ctx : Context)
| Panic (v : PanicValue) (ctx : Context).
Arguments Return {A} a ctx.
Arguments Panic {A} v ctx.

Definition M (A : Type) : Type := Context -> Outcome A.

Definition ret {A} (a : A) : M A := fun ctx => Return a ctx.

Definition bind {A B} (m : M A) (k : A -> M B) : M B :=
  fun ctx =>
    match m ctx with
    | Return a ctx' => k a ctx'
    | Panic v ctx' => Panic v ctx'
    end.

Definition panic {A} (v : PanicValue) : M A := fun ctx => Panic v ctx.
Definition gets {A} (f : Context -> A) : M A := fun ctx => Return (f ctx) ctx.
Definition modify (f : Context -> Context) : M unit := fun ctx => Return tt (f ctx).

Declare Scope go_scope.
Delimit Scope go_scope with go.
Notation "x <~ m ;; k" := (bind m (fun x => k))
  (at level 100, m at next level, right associativity) : go_scope.
Notation "m ;;; k" := (bind m (fun _ => k))
  (at level 100, right associativity) : go_scope.
Local Open Scope go_scope.

(** [if err != nil { panic(err) }] *)
Definition must {A} (r : result A) : M A :=
  match r with
  | Ok a => ret a
  | Err e => panic (PanicErr e)
  end.

(** [defer f()] around a body: [f] runs when the body returns and when it
    panics, and the body's outcome stands. *)
Definition defer_ {A} (f : Context -> Context) (m : M A) : M A :=
  fun ctx =>
    match m ctx with
    | Return a ctx' => Return a (f ctx')
    | Panic v ctx' => Panic v (f ctx')
    end.

(** ** The state adapter ([statedb.go]) *)

(** [StateDB] holds a pointer to the context and the coordinate.  The
    pointed-to context is the state the monad threads: the adapter and the
    pipeline that built it work on the same object. *)
Record StateDB := { Coord : Coordinate }.

(** A Go map read [m[k]] of a [map[K]bool]: absent keys read [false]. *)
Definition map_get (m : gmap (list Byte.byte) bool) (k : bytes) : bool :=
  default false (m !! k).

Section Adapter.

(** [hash.Hash], the 32-byte digest of the ledger. *)
Variable hash : bytes -> Hash256.

Definition KeywordCode : Hash256 := hash (String.list_byte_of_string "__CODE__").
Definition KeywordCodeHash : Hash256 := hash (String.list_byte_of_string "__CODEHASH__").
Definition KeywordCodeSize : Hash256 := hash (String.list_byte_of_string "__CODESIZE__").
Definition KeywordSuicide : Hash256 := hash (String.list_byte_of_string "__SUICIDE__").

(** [KeywordMap] after the package's [init] has run. *)
Definition KeywordMap : gmap (list Byte.byte) bool :=
  <[KeywordSuicide := true]>
    (<[KeywordCodeHash := true]>
       (<[KeywordCode := true]> ∅)).

Definition CreateAccount (sd : StateDB) (addr : Address) (name : string) : M unit :=
  a <~ must (Accounter_NewByTypeName "solidity.ContractAccount") ;;
  let acc := {| Address_ := addr; Name_ := name; Balance_ := Balance_ a |} in
  ctx' <~ (fun ctx => must (ctx_CreateAccount acc ctx) ctx) ;;
  modify (fun _ => ctx').

Definition SubBalance (sd : StateDB) (addr : Address) (b : Amount) : M unit :=
  acc <~ (fun ctx => must (ctx_Account addr ctx) ctx) ;;
  acc' <~ must (acc_SubBalance acc b) ;;
  modify (ctx_store addr acc').

Definition AddBalance (sd : StateDB) (addr : Address) (b : Amount) : M unit :=
  acc <~ (fun ctx => must (ctx_Account addr ctx) ctx) ;;
  modify (ctx_store addr (acc_AddBalance acc b)).

Definition GetBalance (sd : StateDB) (addr : Address) : M Amount :=
  acc <~ (fun ctx => must (ctx_Account addr ctx) ctx) ;;
  ret (acc_Balance acc).

Definition GetSeq (sd : StateDB) (addr : Address) : M N :=
  gets (ctx_Seq addr).

Definition AddSeq (sd : StateDB) (addr : Address) : M unit :=
  modify (ctx_AddSeq addr).

Definition GetState (sd : StateDB) (addr : Address) (h : Hash256) : M Hash256 :=
  bs <~ gets (ctx_AccountData addr h) ;;
  ret (if (0 <? length bs)%nat then copy Hash256_zero bs else Hash256_zero).

Definition GetCodeHash (sd : StateDB) (addr : Address) : M Hash256 :=
  GetState sd addr KeywordCodeHash.

Definition GetCode (sd : StateDB) (addr : Address) : M bytes :=
  gets (ctx_AccountData addr KeywordCode).

Definition SetCode (sd : StateDB) (addr : Address) (code : bytes) : M unit :=
  modify (ctx_SetAccountData addr KeywordCode code) ;;;
  let h := hash code in
  modify (ctx_SetAccountData addr KeywordCodeHash h) ;;;
  let bs := PutUint32 (uint32 (Z.of_nat (length code))) in
  modify (ctx_SetAccountData addr KeywordCodeSize bs).

Definition GetCodeSize (sd : StateDB) (addr : Address) : M Z :=
  bs <~ gets (ctx_AccountData addr KeywordCodeSize) ;;
  ret (if (length bs =? 4)%nat then Uint32 bs else 0).

Definition SetState (sd : StateDB) (addr : Address) (h v : Hash256) : M unit :=
  if map_get KeywordMap h then panic (PanicStr "reserved keyword")
  else modify (ctx_SetAccountData addr h v).

Definition Suicide (sd : StateDB) (addr : Address) : M bool :=
  modify (ctx_SetAccountData addr KeywordSuicide [Byte.x01]) ;;;
  ret true.

Definition HasSuicided (sd : StateDB) (addr : Address) : M bool :=
  bs <~ gets (ctx_AccountData addr KeywordSuicide) ;;
  ret (match bs with
       | b :: _ => bool_decide (b = Byte.x01)
       | [] => false
       end).

Definition Exist (sd : StateDB) (addr : Address) : M bool :=
  fun ctx => must (ctx_IsExistAccount addr ctx) ctx.

Definition Empty (sd : StateDB) (addr : Address) : M bool :=
  acc <~ (fun ctx => must (ctx_Account addr ctx) ctx) ;;
  seq <~ gets (ctx_Seq addr) ;;
  if negb (seq =? 0)%N then ret false
  else if negb (IsZero (acc_Balance acc)) then ret false
  else sz <~ GetCodeSize sd addr ;; ret (sz =? 0).

Definition RevertToSnapshot (sd : StateDB) (n : nat) : M unit :=
  modify (ctx_Revert n).

Definition CommitSnapshot (sd : StateDB) (n : nat) : M unit :=
  modify (ctx_Commit n).

Definition Snapshot (sd : StateDB) : M nat :=
  fun ctx => let '(n, ctx') := ctx_Snapshot ctx in Return n ctx'.

Definition AddLog (sd : StateDB) (l : Log) : M unit :=
  e <~ must (Eventer_NewByTypeName "solidity.Log") ;;
  let ev := {| ev_Coord := Coord sd; ev_Address := log_Address l;
               ev_Topics := log_Topics l; ev_Data := log_Data l;
               ev_Removed := log_Removed l |} in
  modify (ctx_EmitEvent ev).

End Adapter.

(** ** Balance transfer primitives *)

(** The part of the [vm.StateDB] interface the primitives call. *)
Class VMStateDB (S : Type) := {
  db_GetBalance : S -> Address -> M Amount;
  db_SubBalance : S -> Address -> Amount -> M unit;
  db_AddBalance : S -> Address -> Amount -> M unit
}.

#[global] Instance StateDB_VMStateDB : VMStateDB StateDB := {|
  db_GetBalance := GetBalance;
  db_SubBalance := SubBalance;
  db_AddBalance := AddBalance
|}.

Definition CanTransfer {S} `{VMStateDB S} (db : S) (addr : Address)
    (amount : Amount) : M bool :=
  b <~ db_GetBalance db addr ;;
  ret (negb (Less b amount)).

Definition Transfer {S} `{VMStateDB S} (db : S) (sender recipient : Address)
    (amount : Amount) : M unit :=
  if negb (IsZero amount) then
    db_SubBalance db sender amount ;;;
    db_AddBalance db recipient amount
  else ret tt.

(** ** The contract-creation transaction ([tx_create_contract.go]) *)

(** [transaction.Base], the common envelope. *)
Record Base := { Type_ : N; Timestamp_ : N }.

Record CreateContract := {
  tx_Base : Base;
  Seq_ : N;
  From_ : Address;
  Name : string;
  Code : bytes;
  Params : bytes
}.

Definition IsUTXO (tx : CreateContract) : bool := false.
Definition From (tx : CreateContract) : Address := From_ tx.
Definition Seq (tx : CreateContract) : N := Seq_ tx.

(** [allowedKeyMap] is a package-level map; it is passed explicitly. *)
Definition RegisterAllowedKey (KeyHash : PublicHash)
    (allowedKeyMap : gmap (list Byte.byte) bool) : gmap (list Byte.byte) bool :=
  <[KeyHash := true]> allowedKeyMap.

Definition UnregisterAllowedKey (KeyHash : PublicHash)
    (allowedKeyMap : gmap (list Byte.byte) bool) : gmap (list Byte.byte) bool :=
  delete KeyHash allowedKeyMap.

(** *** Wire encoding *)

(** A wire helper of the ledger's utility package for values of type [A]:
    what it appends to a writer, and what it takes from a reader.  The
    byte count a helper reports is the number of bytes it wrote or
    consumed. *)
Record Wire (A : Type) := {
  wire_write : A -> result bytes;
  wire_read : bytes -> result (A * bytes)
}.
Arguments wire_write {A} _ _.
Arguments wire_read {A} _ _.

Definition write_step {A} (W : Wire A) (a : A) (w : bytes) : result (Z * bytes) :=
  match wire_write W a with
  | Ok bs => Ok (Z.of_nat (length bs), w ++ bs)
  | Err e => Err e
  end.

Definition read_step {A} (W : Wire A) (r : bytes) : result (A * Z * bytes) :=
  match wire_read W r with
  | Ok (a, r') => Ok (a, Z.of_nat (length r - length r'), r')
  | Err e => Err e
  end.

(** The law a pair of helpers is expected to meet: what was written is
    read back, and the reader is left at the byte after it. *)
Definition wire_ok {A} (W : Wire A) : Prop :=
  forall (a : A) (bs rest : bytes),
    wire_write W a = Ok bs -> wire_read W (bs ++ rest) = Ok (a, rest).

Section Serialization.

(** [transaction.Base.WriteTo/ReadFrom], [util.WriteUint64/ReadUint64],
    [common.Address.WriteTo/ReadFrom], [util.WriteString/ReadString] and
    [util.WriteBytes/ReadBytes]. *)
Variable wBase : Wire Base.
Variable wUint64 : Wire N.
Variable wAddress : Wire (list Byte.byte).
Variable wString : Wire string.
Variable wBytes : Wire (list Byte.byte).

(** [WriteTo]: the writer is the buffer written so far; the result is
    [(wrote, err)] and the buffer afterwards. *)
Definition WriteTo (tx : CreateContract) (w : bytes) : (Z * option error) * bytes :=
  let wrote := 0 in
  match write_step wBase (tx_Base tx) w with
  | Err err => ((wrote, Some err), w)
  | Ok (n, w) =>
  let wrote := wrote + n in
  match write_step wUint64 (Seq_ tx) w with
  | Err err => ((wrote, Some err), w)
  | Ok (n, w) =>
  let wrote := wrote + n in
  match write_step wAddress (From_ tx) w with
  | Err err => ((wrote, Some err), w)
  | Ok (n, w) =>
  let wrote := wrote + n in
  match write_step wString (Name tx) w with
  | Err err => ((wrote, Some err), w)
  | Ok (n, w) =>
  let wrote := wrote + n in
  match write_step wBytes (Code tx) w with
  | Err err => ((wrote, Some err), w)
  | Ok (n, w) =>
  let wrote := wrote + n in
  match write_step wBytes (Params tx) w with
  | Err err => ((wrote, Some err), w)
  | Ok (n, w) =>
  let wrote := wrote + n in
  ((wrote, None), w)
  end end end end end end.

(** [ReadFrom]: the receiver is overwritten field by field; the result is
    the receiver afterwards, [(read, err)] and the rest of the reader. *)
Definition ReadFrom (tx : CreateContract) (r : bytes)
    : (CreateContract * Z * option error) * bytes :=
  let read := 0 in
  match read_step wBase r with
  | Err err => ((tx, read, Some err), r)
  | Ok (b, n, r) =>
  let read := read + n in
  let tx := {| tx_Base := b; Seq_ := Seq_ tx; From_ := From_ tx;
               Name := Name tx; Code := Code tx; Params := Params tx |} in
  match read_step wUint64 r with
  | Err err => ((tx, read, Some err), r)
  | Ok (v, n, r) =>
  let read := read + n in
  let tx := {| tx_Base := tx_Base tx; Seq_ := v; From_ := From_ tx;
               Name := Name tx; Code := Code tx; Params := Params tx |} in
  match read_step wAddress r with
  | Err err => ((tx, read, Some err), r)
  | Ok (a, n, r) =>
  let read := read + n in
  let tx := {| tx_Base := tx_Base tx; Seq_ := Seq_ tx; From_ := a;
               Name := Name tx; Code := Code tx; Params := Params tx |} in
  match read_step wString r with
  | Err err => ((tx, read, Some err), r)
  | Ok (v, n, r) =>
  let read := read + n in
  let tx := {| tx_Base := tx_Base tx; Seq_ := Seq_ tx; From_ := From_ tx;
               Name := v; Code := Code tx; Params := Params tx |} in
  match read_step wBytes r with
  | Err err => ((tx, read, Some err), r)
  | Ok (bs, n, r) =>
  let read := read + n in
  let tx := {| tx_Base := tx_Base tx; Seq_ := Seq_ tx; From_ := From_ tx;
               Name := Name tx; Code := bs; Params := Params tx |} in
  match read_step wBytes r with
  | Err err => ((tx, read, Some err), r)
  | Ok (bs, n, r) =>
  let read := read + n in
  let tx := {| tx_Base := tx_Base tx; Seq_ := Seq_ tx; From_ := From_ tx;
               Name := Name tx; Code := Code tx; Params := bs |} in
  ((tx, read, None), r)
  end end end end end end.

(** The six component reads in wire order, every one succeeding. *)
Definition reads_in_order (r : bytes) (tx : CreateContract) (r' : bytes) : Prop :=
  exists r1 r2 r3 r4 r5,
    wire_read wBase r = Ok (tx_Base tx, r1) /\
    wire_read wUint64 r1 = Ok (Seq_ tx, r2) /\
    wire_read wAddress r2 = Ok (From_ tx, r3) /\
    wire_read wString r3 = Ok (Name tx, r4) /\
    wire_read wBytes r4 = Ok (Code tx, r5) /\
    wire_read wBytes r5 = Ok (Params tx, r').

End Serialization.

(** *** The validate and apply phases *)

(** The execution context handed to the virtual machine ([vm.Context]). *)
Record vm_Context := {
  vc_CanTransfer : StateDB -> Address -> Amount -> M bool;
  vc_Transfer : StateDB -> Address -> Address -> Amount -> M unit;
  vc_GetHash : N -> Hash256;
  vc_Origin : Address;
  vc_BlockNumber : Z;
  vc_Time : Z;
  vc_Difficulty : Z
}.

(** [vm.LogConfig] and [vm.Config] as the apply phase fills them. *)
Record vm_LogConfig := {
  DisableMemory : bool;
  DisableStack : bool;
  lc_Debug : bool
}.

Record vm_Config := { Tracer : vm_LogConfig; cfg_Debug : bool }.

(** [signers[0]]: indexing an empty slice is a run-time panic. *)
Definition index0 {A} (l : list A) : M A :=
  match l with
  | x :: _ => ret x
  | [] => panic (PanicErr (RuntimeError "index out of range"))
  end.

(** What the recovering deferred closure of the apply phase stores in
    [rerr]. *)
Definition recovered (e : PanicValue) : error :=
  match e with
  | PanicErr err => err
  | PanicStr _ => ErrVirtualMachinePanic
  end.

(** [defer func() { if e := recover(); e != nil { ... } }()] around a body
    with the named results [(ret, rerr)]: a panic leaves [ret] nil. *)
Definition recover_ {A} (m : M (option A * option error)) : M (option A * option error) :=
  fun ctx =>
    match m ctx with
    | Return r ctx' => Return r ctx'
    | Panic e ctx' => Return (None, Some (recovered e)) ctx'
    end.

Section Pipeline.

(** [common.NewAddress]. *)
Variable NewAddress : Coordinate -> N -> Address.

(** [vm.NewEVM(vctx, statedb, vmCfg).Create(caller, addr, name, code, value)]:
    the interpreter is not part of the sources; it works on the context
    through the adapter and returns [(code, err)] or panics. *)
Variable evm_Create :
  vm_Context -> StateDB -> vm_Config ->
  Address -> Address -> string -> bytes -> Amount -> M (bytes * option error).

(** [loader.Accounter().Validate(loader, fromAcc, signers)]. *)
Variable Accounter_Validate : Context -> Account -> list PublicHash -> option error.

(** The validate closure.  The loader is the context, read only. *)
Definition validate (allowedKeyMap : gmap (list Byte.byte) bool)
    (tx : CreateContract) (signers : list PublicHash) : M (option error) :=
  seq <~ gets (ctx_Seq (From tx)) ;;
  if (Seq tx <=? seq)%N then ret (Some ErrInvalidSequence) else
  if (1 <? length signers)%nat then ret (Some ErrInvalidSignerCount) else
  s0 <~ index0 signers ;;
  if negb (map_get allowedKeyMap s0) then ret (Some ErrNotAllowed) else
  r <~ gets (ctx_Account (From tx)) ;;
  match r with
  | Err err => ret (Some err)
  | Ok fromAcc =>
      loader <~ gets (fun ctx => ctx) ;;
      match Accounter_Validate loader fromAcc signers with
      | Some err => ret (Some err)
      | None => ret None
      end
  end.

(** The apply closure from the sequence check to the final return, under
    the snapshot [sn].  [now] is the reading of [time.Now().Unix()]. *)
Definition apply_steps (now : Z) (Fee : Amount) (tx : CreateContract)
    (coord : Coordinate) (sn : nat) : M (option bytes * option error) :=
  seq <~ gets (ctx_Seq (From tx)) ;;
  if negb (Seq tx =? uint64_succ seq)%N then ret (None, Some ErrInvalidSequence) else
  modify (ctx_AddSeq (From tx)) ;;;
  r <~ gets (ctx_Account (From tx)) ;;
  match r with
  | Err err => ret (None, Some err)
  | Ok fromAcc =>
  match acc_SubBalance fromAcc Fee with
  | Err err => ret (None, Some err)
  | Ok fromAcc' =>
  modify (ctx_store (From tx) fromAcc') ;;;
  let contAddr := NewAddress coord 0%N in
  ex <~ gets (ctx_IsExistAccount contAddr) ;;
  match ex with
  | Err err => ret (None, Some err)
  | Ok true => ret (None, Some ErrExistAddress)
  | Ok false =>
  exn <~ gets (ctx_IsExistAccountName (Name tx)) ;;
  match exn with
  | Err err => ret (None, Some err)
  | Ok true => ret (None, Some ErrExistAccountName)
  | Ok false =>
  let statedb := {| Coord := coord |} in
  let logconfig := {| DisableMemory := false; DisableStack := false;
                      lc_Debug := false |} in
  let vmCfg := {| Tracer := logconfig; cfg_Debug := false |} in
  let vctx := {| vc_CanTransfer := CanTransfer;
                 vc_Transfer := Transfer;
                 vc_GetHash := fun _ => Hash256_zero;
                 vc_Origin := From tx;
                 vc_BlockNumber := 100;
                 vc_Time := now;
                 vc_Difficulty := 0 |} in
  cr <~ evm_Create vctx statedb vmCfg (From tx) contAddr (Name tx)
          (Code tx ++ Params tx) 0%N ;;
  match cr with
  | (_, Some err) => ret (None, Some err)
  | (code, None) =>
      modify (ctx_Commit sn) ;;;
      ret (Some code, None)
  end
  end end end end.

(** The apply closure: the recovering closure is deferred first, the
    snapshot is taken, its revert is deferred, and the steps run. *)
Definition apply (now : Z) (Fee : Amount) (tx : CreateContract)
    (coord : Coordinate) : M (option bytes * option error) :=
  recover_
    (fun ctx =>
       let '(sn, ctx1) := ctx_Snapshot ctx in
       defer_ (ctx_Revert sn) (apply_steps now Fee tx coord sn) ctx1).

End Pipeline.

(** ** Closed instances *)

(** The collaborators above are variables.  The instances below stand in
    for them wherever a statement is evaluated on a concrete ledger. *)

(** A stand-in for the digest: the input cut or zero-padded to 32 bytes.
    It is 32 bytes long and tells the four keywords apart. *)
Definition pad_hash (d : bytes) : Hash256 :=
  take 32 (d ++ replicate 32 Byte.x00).

Definition byte_of_N (n : N) : Byte.byte := default Byte.x00 (Byte.of_N n).

(** Little-endian bytes of a number, and back. *)
Fixpoint le_bytes (k : nat) (v : N) : bytes :=
  match k with
  | O => []
  | S k' => byte_of_N (v mod 256) :: le_bytes k' (v / 256)
  end.

Fixpoint le_value (bs : bytes) : N :=
  match bs with
  | [] => 0%N
  | b :: bs' => (Byte.to_N b + 256 * le_value bs')%N
  end.

(** A stand-in for the address derivation: height, index and nonce in a
    20-byte array. *)
Definition coord_address (coord : Coordinate) (nonce : N) : Address :=
  le_bytes 4 (Height coord) ++ le_bytes 2 (Index coord) ++ le_bytes 8 nonce
    ++ replicate 6 Byte.x00.

Definition short_read : error := ErrOther "unexpected EOF".
Definition bad_length : error := ErrOther "invalid length".

(** A fixed-width unsigned integer, little-endian. *)
Definition uint_wire (k : nat) : Wire N := {|
  wire_write v :=
    if (v <? 256 ^ N.of_nat k)%N then Ok (le_bytes k v) else Err bad_length;
  wire_read r :=
    if (length r <? k)%nat then Err short_read
    else Ok (le_value (take k r), drop k r)
|}.

(** A fixed-size byte array. *)
Definition fixed_wire (k : nat) : Wire (list Byte.byte) := {|
  wire_write a := if (length a =? k)%nat then Ok a else Err bad_length;
  wire_read r :=
    if (length r <? k)%nat then Err short_read else Ok (take k r, drop k r)
|}.

(** Bytes behind a one-byte length. *)
Definition bytes_wire : Wire (list Byte.byte) := {|
  wire_write bs :=
    match Byte.of_N (N.of_nat (length bs)) with
    | Some b => Ok (b :: bs)
    | None => Err bad_length
    end;
  wire_read r :=
    match r with
    | [] => Err short_read
    | b :: r' =>
        let n := N.to_nat (Byte.to_N b) in
        if (length r' <? n)%nat then Err short_read
        else Ok (take n r', drop n r')
    end
|}.

Definition string_wire : Wire string := {|
  wire_write s := wire_write bytes_wire (String.list_byte_of_string s);
  wire_read r :=
    match wire_read bytes_wire r with
    | Ok (bs, r') => Ok (String.string_of_list_byte bs, r')
    | Err e => Err e
    end
|}.

(** The envelope: a type byte and an 8-byte timestamp. *)
Definition base_wire : Wire Base := {|
  wire_write b :=
    match wire_write (uint_wire 1) (Type_ b), wire_write (uint_wire 8) (Timestamp_ b) with
    | Ok t, Ok ts => Ok (t ++ ts)
    | Err e, _ => Err e
    | _, Err e => Err e
    end;
  wire_read r :=
    match wire_read (uint_wire 1) r with
    | Err e => Err e
    | Ok (t, r1) =>
        match wire_read (uint_wire 8) r1 with
        | Err e => Err e
        | Ok (ts, r2) => Ok ({| Type_ := t; Timestamp_ := ts |}, r2)
        end
    end
|}.

Definition address_wire : Wire (list Byte.byte) := fixed_wire 20.

(** A constructor that reads the block time and keeps it in the deployed
    code, as bytecode using the timestamp instruction does. *)
Definition timestamp_vm (vctx : vm_Context) (sd : StateDB) (cfg : vm_Config)
    (caller addr : Address) (name : string) (code : bytes) (value : Amount)
    : M (bytes * option error) :=
  CreateAccount sd addr name ;;;
  vc_Transfer vctx sd caller addr value ;;;
  let deployed := code ++ PutUint32 (uint32 (vc_Time vctx)) in
  SetCode pad_hash sd addr deployed ;;;
  ret (deployed, None).

(** A constructor that deploys its init code as it is. *)
Definition plain_vm (vctx : vm_Context) (sd : StateDB) (cfg : vm_Config)
    (caller addr : Address) (name : string) (code : bytes) (value : Amount)
    : M (bytes * option error) :=
  CreateAccount sd addr name ;;;
  vc_Transfer vctx sd caller addr value ;;;
  SetCode pad_hash sd addr code ;;;
  ret (code, None).

(** A constructor that takes a checkpoint of its own and then stores into
    the code slot through the generic write path. *)
Definition reserved_write_vm (vctx : vm_Context) (sd : StateDB) (cfg : vm_Config)
    (caller addr : Address) (name : string) (code : bytes) (value : Amount)
    : M (bytes * option error) :=
  CreateAccount sd addr name ;;;
  n <~ Snapshot sd ;;
  SetState pad_hash sd addr (KeywordCode pad_hash) Hash256_zero ;;;
  ret (code, None).

(** An account policy that accepts every signer set. *)
Definition accept_all (loader : Context) (acc : Account)
    (signers : list PublicHash) : option error := None.

Definition creator : Address := replicate 20 Byte.x0a.
Definition payee : Address := replicate 20 Byte.x0b.
Definition stranger : Address := replicate 20 Byte.x0c.

Definition empty_data : ContextData :=
  {| AccountMap := ∅; SeqMap := ∅; AccountDataMap := ∅; Events := [] |}.

Definition empty_ledger : Context := {| Top := empty_data; Stack := [] |}.

(** The ledger of the end-to-end scenario: the creator holds 1000 and has
    sequence 0; a second account holds 5. *)
Definition ledger0 : Context :=
  {| Top :=
       {| AccountMap :=
            <[creator := {| Address_ := creator; Name_ := "creator"; Balance_ := 1000%N |}]>
              (<[payee := {| Address_ := payee; Name_ := "payee"; Balance_ := 5%N |}]> ∅);
          SeqMap := ∅; AccountDataMap := ∅; Events := [] |};
     Stack := [] |}.

Definition coord0 : Coordinate := {| Height := 7; Index := 3 |}.

Definition tx0 : CreateContract :=
  {| tx_Base := {| Type_ := 60; Timestamp_ := 1546300800 |};
     Seq_ := 1; From_ := creator; Name := "Foo";
     Code := [Byte.xaa; Byte.xbb]; Params := [] |}.

Definition sd0 : StateDB := {| Coord := coord0 |}.

(** A byte string of 2^32 zero bytes. *)
Definition huge_code : bytes := replicate (Z.to_nat (2 ^ 32)) Byte.x00.

(** ** Observations used in the statements *)

Definition outcome_ctx {A} (o : Outcome A) : Context :=
  match o with
  | Return _ ctx => ctx
  | Panic _ ctx => ctx
  end.

Definition outcome_value {A} (o : Outcome A) : option A :=
  match o with
  | Return a _ => Some a
  | Panic _ _ => None
  end.

(** The balance held at an address, zero where no account is registered. *)
Definition balance_of (addr : Address) (ctx : Context) : N :=
  match ctx_Account addr ctx with
  | Ok acc => acc_Balance acc
  | Err _ => 0%N
  end.

(** The total held by two accounts. *)
Definition pair_total (a b : Address) (ctx : Context) : N :=
  if decide (a = b) then balance_of a ctx
  else (balance_of a ctx + balance_of b ctx)%N.

(** The checkpoint opened on [ctx] is still in place in [ctx']: whatever
    ran in between consumed only checkpoints of its own. *)
Definition checkpoint_intact (ctx ctx' : Context) : Prop :=
  drop (length (Stack ctx') - S (length (Stack ctx))) (Stack ctx')
  = Top ctx :: Stack ctx.

(** The three keys that hold the deployed code record are pairwise
    distinct, as they are for a collision-free digest. *)
Definition code_keys_distinct (hash : bytes -> Hash256) : Prop :=
  NoDup [KeywordCode hash; KeywordCodeHash hash; KeywordCodeSize hash].

(** A transfer that debits [sender] and credits [recipient] by [amount],
    the way the claim words it for every state. *)
Definition transfer_moves (sd : StateDB) (sender recipient : Address)
    (amount : N) (ctx : Context) : Prop :=
  exists ctx',
    Transfer sd sender recipient amount ctx = Return tt ctx' /\
    (balance_of sender ctx' + amount = balance_of sender ctx)%N /\
    balance_of recipient ctx' = (balance_of recipient ctx + amount)%N.

(** ** The human-readable encoding ([MarshalJSON]) *)

(** [json.Marshal] of an unsigned integer: its decimal digits. *)
Definition json_uint (n : N) : string :=
  DecimalString.NilZero.string_of_uint (N.to_uint n).

Definition hextable : string := "0123456789abcdef".

Definition hex_char (n : N) : Ascii.ascii :=
  default (Ascii.ascii_of_nat 48) (String.get (N.to_nat n) hextable).

(** [hex.EncodeToString]: two lower-case digits per byte, high nibble
    first. *)
Fixpoint hex_EncodeToString (src : bytes) : string :=
  match src with
  | [] => EmptyString
  | v :: rest =>
      String (hex_char (N.shiftr (Byte.to_N v) 4))
        (String (hex_char (N.land (Byte.to_N v) 15))
           (hex_EncodeToString rest))
  end.

(** The double-quote character. *)
Definition dquote : string := String (Ascii.ascii_of_nat 34) EmptyString.

(** A field name between quotes, followed by a colon. *)
Definition json_key (k : string) : string := dquote +:+ k +:+ dquote +:+ ":".

(** Code and parameters: [null] when empty, a quoted hex string otherwise. *)
Definition json_bytes (bs : bytes) : string :=
  if (length bs =? 0)%nat then "null"
  else dquote +:+ hex_EncodeToString bs +:+ dquote.

Section Json.

(** [json.Marshal(tx.Type_)] for the ledger's transaction type and
    [common.Address.MarshalJSON]. *)
Variable json_Type : N -> result string.
Variable Address_MarshalJSON : bytes -> result string.

(** [MarshalJSON]: the buffer is built left to right; the first failing
    marshaller ends the call with its error. *)
Definition MarshalJSON (tx : CreateContract) : result string :=
  let buffer := "{" in
  let buffer := buffer +:+ json_key "type" in
  match json_Type (Type_ (tx_Base tx)) with
  | Err err => Err err
  | Ok bs =>
  let buffer := buffer +:+ bs in
  let buffer := buffer +:+ "," in
  let buffer := buffer +:+ json_key "timestamp" in
  let buffer := buffer +:+ json_uint (Timestamp_ (tx_Base tx)) in
  let buffer := buffer +:+ "," in
  let buffer := buffer +:+ json_key "seq" in
  let buffer := buffer +:+ json_uint (Seq_ tx) in
  let buffer := buffer +:+ "," in
  let buffer := buffer +:+ json_key "from" in
  match Address_MarshalJSON (From_ tx) with
  | Err err => Err err
  | Ok bs =>
  let buffer := buffer +:+ bs in
  let buffer := buffer +:+ "," in
  let buffer := buffer +:+ json_key "code" in
  let buffer := buffer +:+ json_bytes (Code tx) in
  let buffer := buffer +:+ "," in
  let buffer := buffer +:+ json_key "params" in
  let buffer := buffer +:+ json_bytes (Params tx) in
  let buffer := buffer +:+ "}" in
  Ok buffer
  end end.

End Json.

(** A stand-in for the address marshaller: the quoted hex digits. *)
Definition hex_address (a : bytes) : result string :=
  Ok (dquote +:+ hex_EncodeToString a +:+ dquote).

(** A stand-in for the marshaller of the type tag: its decimal digits. *)
Definition decimal_type (t : N) : result string := Ok (json_uint t).

(** ** Further observations *)

(** A computation that leaves the open checkpoints as they are, whatever
    its outcome. *)
Definition keeps_stack {A} (m : M A) : Prop :=
  forall ctx, Stack (outcome_ctx (m ctx)) = Stack ctx.

(** The event [AddLog] emits for a log entry. *)
Definition log_event (sd : StateDB) (l : Log) : LogEvent :=
  {| ev_Coord := Coord sd; ev_Address := log_Address l;
     ev_Topics := log_Topics l; ev_Data := log_Data l;
     ev_Removed := log_Removed l |}.

(** A run of calls, one after the other. *)
Fixpoint for_each {A} (f : A -> M unit) (l : list A) : M unit :=
  match l with
  | [] => ret tt
  | x :: l' => f x ;;; for_each f l'
  end.

(** The context the apply phase hands to the virtual machine: the
    snapshot is open, the creator's sequence is incremented and the fee is
    debited. *)
Definition before_vm (Fee : N) (tx : CreateContract) (fromAcc : Account)
    (ctx : Context) : Context :=
  ctx_store (From tx)
    {| Address_ := Address_ fromAcc; Name_ := Name_ fromAcc;
       Balance_ := (Balance_ fromAcc - Fee)%N |}
    (ctx_AddSeq (From tx) (ctx_Snapshot ctx).2).

(** The execution context and the configuration the apply phase builds
    for the virtual machine. *)
Definition apply_vctx (now : Z) (tx : CreateContract) : vm_Context :=
  {| vc_CanTransfer := CanTransfer;
     vc_Transfer := Transfer;
     vc_GetHash := fun _ => Hash256_zero;
     vc_Origin := From tx;
     vc_BlockNumber := 100;
     vc_Time := now;
     vc_Difficulty := 0 |}.

Definition apply_vmCfg : vm_Config :=
  {| Tracer := {| DisableMemory := false; DisableStack := false;
                  lc_Debug := false |};
     cfg_Debug := false |}.

(** A virtual machine that consumes only checkpoints of its own: called
    with the execution context of the apply phase, in every outcome it
    leaves the checkpoints that were open at the call in place, at the
    same depth. *)
Definition vm_keeps_checkpoints
    (evm_Create : vm_Context -> StateDB -> vm_Config -> bytes -> bytes ->
                  string -> bytes -> N -> M (bytes * option error)) : Prop :=
  forall now tx sd cfg caller addr name code value ctx,
    let ctx' := outcome_ctx (evm_Create (apply_vctx now tx) sd cfg caller addr
                               name code value ctx) in
    drop (length (Stack ctx') - length (Stack ctx)) (Stack ctx') = Stack ctx.

(** Some registered account carries the name. *)
Definition name_taken (name : string) (ctx : Context) : Prop :=
  exists k acc, AccountMap (Top ctx) !! k = Some acc /\ Name_ acc = name.

(** * Properties *)

(** ** Little-endian words *)

Lemma Z_of_byte_of_Z (v : Z) : Z_of_byte (byte_of_Z v) = v mod 256.
Proof.
  unfold Z_of_byte, byte_of_Z.
  change 255 with (Z.ones 8). rewrite Z.land_ones by lia.
  change (2 ^ 8) with 256.
  assert (H : 0 <= v mod 256 < 256) by (apply Z.mod_pos_bound; lia).
  destruct (Byte.of_N (Z.to_N (v mod 256))) as [b|] eqn:E; simpl.
  - apply Byte.to_of_N in E. rewrite E. lia.
  - apply Byte.of_N_None_iff in E. lia.
Qed.

Lemma lor_add_disjoint (a c k : Z) :
  0 <= k -> 0 <= a < 2 ^ k -> Z.lor a (c * 2 ^ k) = a + c * 2 ^ k.
Proof.
  intros Hk Ha.
  assert (Hland : Z.land a (c * 2 ^ k) = 0).
  { apply Z.bits_inj'. intros n Hn.
    rewrite Z.land_spec, Z.bits_0.
    destruct (Z.lt_ge_cases n k).
    - rewrite Z.mul_pow2_bits_low by lia. apply andb_false_r.
    - replace (Z.testbit a n) with false; [reflexivity|].
      symmetry. destruct (Z.eq_dec a 0) as [->|]; [apply Z.bits_0|].
      apply Z.bits_above_log2; [lia|].
      apply Z.log2_lt_pow2; [lia|].
      apply Z.lt_le_trans with (2 ^ k); [lia|]. apply Z.pow_le_mono_r; lia. }
  rewrite <- Z.lxor_lor by exact Hland.
  symmetry. apply Z.add_nocarry_lxor. exact Hland.
Qed.

Lemma Uint32_PutUint32 (v : Z) : 0 <= v -> Uint32 (PutUint32 v) = v mod 2 ^ 32.
Proof.
  intros Hv. unfold Uint32, PutUint32.
  rewrite !Z_of_byte_of_Z, !Z.shiftr_div_pow2, !Z.shiftl_mul_pow2 by lia.
  set (b0 := v mod 256). set (b1 := (v / 2 ^ 8) mod 256).
  set (b2 := (v / 2 ^ 16) mod 256). set (b3 := (v / 2 ^ 24) mod 256).
  assert (H0 : 0 <= b0 < 256) by (apply Z.mod_pos_bound; lia).
  assert (H1 : 0 <= b1 < 256) by (apply Z.mod_pos_bound; lia).
  assert (H2 : 0 <= b2 < 256) by (apply Z.mod_pos_bound; lia).
  assert (H3 : 0 <= b3 < 256) by (apply Z.mod_pos_bound; lia).
  rewrite (lor_add_disjoint (b2 * 2 ^ 16) b3 24) by lia.
  replace (b2 * 2 ^ 16 + b3 * 2 ^ 24) with ((b2 + b3 * 2 ^ 8) * 2 ^ 16) by lia.
  rewrite (lor_add_disjoint (b1 * 2 ^ 8) _ 16) by lia.
  replace (b1 * 2 ^ 8 + (b2 + b3 * 2 ^ 8) * 2 ^ 16)
    with ((b1 + b2 * 2 ^ 8 + b3 * 2 ^ 16) * 2 ^ 8) by lia.
  rewrite (lor_add_disjoint b0 _ 8) by lia.
  subst b0 b1 b2 b3. clear.
  change (2 ^ 8) with 256. change (2 ^ 16) with 65536.
  change (2 ^ 24) with 16777216. change (2 ^ 32) with 4294967296.
  Z.div_mod_to_equations. lia.
Qed.

Lemma PutUint32_length (v : Z) : length (PutUint32 v) = 4%nat.
Proof. reflexivity. Qed.

Lemma copy_full (h : bytes) :
  length h = 32%nat -> copy Hash256_zero h = h.
Proof.
  intros Hlen. unfold copy, Hash256_zero.
  rewrite length_replicate, <- Hlen, firstn_all, Hlen.
  change (drop 32 (replicate 32 Byte.x00)) with (@nil Byte.byte).
  apply app_nil_r.
Qed.

Lemma pad_hash_length (d : bytes) : length (pad_hash d) = 32%nat.
Proof.
  unfold pad_hash. rewrite length_take, length_app, length_replicate. lia.
Qed.

Lemma pad_hash_code_keys : code_keys_distinct pad_hash.
Proof. unfold code_keys_distinct. apply (bool_decide_unpack _). vm_compute. exact I. Qed.

(** ** The adapter's slots *)

Lemma AccountData_Set_eq (a : bytes) (k v : bytes) (ctx : Context) :
  ctx_AccountData a k (ctx_SetAccountData a k v ctx) = v.
Proof.
  unfold ctx_AccountData, ctx_SetAccountData, with_top. simpl.
  by rewrite lookup_insert_eq.
Qed.

Lemma AccountData_Set_ne (a a' : bytes) (k k' v : bytes) (ctx : Context) :
  (a, k) <> (a', k') ->
  ctx_AccountData a' k' (ctx_SetAccountData a k v ctx) = ctx_AccountData a' k' ctx.
Proof.
  intros Hne. unfold ctx_AccountData, ctx_SetAccountData, with_top. simpl.
  by rewrite lookup_insert_ne.
Qed.

Lemma SetCode_runs (hash : bytes -> bytes) (sd : StateDB) (a c : bytes) (ctx : Context) :
  SetCode hash sd a c ctx =
  Return tt
    (ctx_SetAccountData a (KeywordCodeSize hash)
       (PutUint32 (uint32 (Z.of_nat (length c))))
       (ctx_SetAccountData a (KeywordCodeHash hash) (hash c)
          (ctx_SetAccountData a (KeywordCode hash) c ctx))).
Proof. reflexivity. Qed.

(** The size slot holds the length modulo 2^32, whatever the length. *)
Lemma GetCodeSize_after_SetCode (hash : bytes -> bytes) (sd : StateDB)
    (a c : bytes) (ctx : Context) :
  GetCodeSize hash sd a (outcome_ctx (SetCode hash sd a c ctx)) =
  Return (Z.of_nat (length c) mod 2 ^ 32) (outcome_ctx (SetCode hash sd a c ctx)).
Proof.
  rewrite SetCode_runs. cbn [outcome_ctx].
  unfold GetCodeSize, bind, gets, ret.
  rewrite AccountData_Set_eq, PutUint32_length. cbn [Nat.eqb].
  rewrite Uint32_PutUint32 by (unfold uint32; apply Z.mod_pos_bound; lia).
  unfold uint32. by rewrite Z.mod_mod by lia.
Qed.

(** C3 (as amended): for every address [a] and every byte string [c]
    shorter than 2^32 bytes, after [SetCode(a, c)] the three code slots are
    jointly consistent: [GetCode(a)] returns [c], [GetCodeHash(a)] returns
    [hash(c)] and [GetCodeSize(a)] returns the length of [c].  The digest is
    32 bytes long and keeps the three slot keys apart. *)
Theorem SetCode_code_record (hash : bytes -> bytes) (sd : StateDB)
    (a c : bytes) (ctx : Context) :
  length (hash c) = 32%nat ->
  code_keys_distinct hash ->
  Z.of_nat (length c) < 2 ^ 32 ->
  exists ctx',
    SetCode hash sd a c ctx = Return tt ctx' /\
    GetCode hash sd a ctx' = Return c ctx' /\
    GetCodeHash hash sd a ctx' = Return (hash c) ctx' /\
    GetCodeSize hash sd a ctx' = Return (Z.of_nat (length c)) ctx'.
Proof.
  intros Hlen Hkeys Hsmall.
  assert (Hne : KeywordCode hash <> KeywordCodeHash hash /\
                KeywordCode hash <> KeywordCodeSize hash /\
                KeywordCodeHash hash <> KeywordCodeSize hash).
  { unfold code_keys_distinct in Hkeys.
    apply NoDup_cons in Hkeys as [H1 Hkeys].
    apply NoDup_cons in Hkeys as [H2 _].
    rewrite !not_elem_of_cons in H1. rewrite not_elem_of_cons in H2.
    destruct H1 as (? & ? & _). destruct H2 as (? & _). done. }
  destruct Hne as (Hch & Hcs & Hhs).
  eexists. split; [apply SetCode_runs|]. repeat split.
  - unfold GetCode, gets.
    rewrite !AccountData_Set_ne, AccountData_Set_eq by congruence. reflexivity.
  - unfold GetCodeHash, GetState, bind, gets, ret.
    rewrite AccountData_Set_ne, AccountData_Set_eq by congruence.
    rewrite Hlen. cbn [Nat.ltb Nat.leb]. by rewrite copy_full.
  - pose proof (GetCodeSize_after_SetCode hash sd a c ctx) as H.
    rewrite SetCode_runs in H. cbn [outcome_ctx] in H. rewrite H.
    rewrite Z.mod_small by lia. reflexivity.
Qed.

Lemma SetCode_code_record_witness :
  exists ctx',
    SetCode pad_hash sd0 creator [Byte.xaa; Byte.xbb] ledger0 = Return tt ctx' /\
    GetCode pad_hash sd0 creator ctx' = Return [Byte.xaa; Byte.xbb] ctx' /\
    GetCodeHash pad_hash sd0 creator ctx' = Return (pad_hash [Byte.xaa; Byte.xbb]) ctx' /\
    GetCodeSize pad_hash sd0 creator ctx' = Return 2 ctx'.
Proof.
  apply (SetCode_code_record pad_hash sd0 creator [Byte.xaa; Byte.xbb] ledger0).
  - reflexivity.
  - apply (bool_decide_unpack _). vm_compute. exact I.
  - simpl. lia.
Defined.

(** C3 as stated fails for a byte string of 2^32 bytes: the size slot
    holds four bytes, and [GetCodeSize] returns 0. *)
Lemma SetCode_size_wraps :
  Z.of_nat (length huge_code) = 4294967296 /\
  outcome_value
    (GetCodeSize pad_hash sd0 creator
       (outcome_ctx (SetCode pad_hash sd0 creator huge_code empty_ledger))) = Some 0.
Proof.
  assert (Hlen : Z.of_nat (length huge_code) = 4294967296).
  { unfold huge_code. rewrite length_replicate, Z2Nat.id by lia. reflexivity. }
  split; [exact Hlen|].
  rewrite GetCodeSize_after_SetCode. cbn [outcome_value].
  rewrite Hlen. reflexivity.
Qed.

(** The keys [init] registers are rejected by [SetState], and nothing is
    written. *)
Lemma SetState_registered_panics (hash : bytes -> bytes) (sd : StateDB)
    (a h v : bytes) (ctx : Context) :
  h ∈ [KeywordCode hash; KeywordCodeHash hash; KeywordSuicide hash] ->
  SetState hash sd a h v ctx = Panic (PanicStr "reserved keyword") ctx.
Proof.
  intros Hin. unfold SetState, map_get, KeywordMap.
  assert (Hget : (<[KeywordSuicide hash:=true]>
                    (<[KeywordCodeHash hash:=true]>
                       (<[KeywordCode hash:=true]> (∅ : gmap (list Byte.byte) bool))))
                   !! h = Some true).
  { destruct (decide (h = KeywordSuicide hash)) as [->|H1];
      [by rewrite lookup_insert_eq|].
    rewrite lookup_insert_ne by done.
    destruct (decide (h = KeywordCodeHash hash)) as [->|H2];
      [by rewrite lookup_insert_eq|].
    rewrite lookup_insert_ne by done.
    destruct (decide (h = KeywordCode hash)) as [->|H3];
      [by rewrite lookup_insert_eq|].
    rewrite !elem_of_cons, elem_of_nil in Hin.
    destruct Hin as [?|[?|[?|[]]]]; done. }
  rewrite Hget. reflexivity.
Qed.

(** C1 at the failing key: [init] does not register [KeywordCodeSize], so
    [SetState(a, KeywordCodeSize, v)] returns normally and the size slot of
    the account holds [v] afterwards. *)
Theorem SetState_CodeSize_written (hash : bytes -> bytes) (sd : StateDB)
    (a v : bytes) (ctx : Context) :
  KeywordCodeSize hash ∉ [KeywordCode hash; KeywordCodeHash hash; KeywordSuicide hash] ->
  SetState hash sd a (KeywordCodeSize hash) v ctx =
    Return tt (ctx_SetAccountData a (KeywordCodeSize hash) v ctx) /\
  ctx_AccountData a (KeywordCodeSize hash)
    (ctx_SetAccountData a (KeywordCodeSize hash) v ctx) = v.
Proof.
  intros Hnot. split; [|apply AccountData_Set_eq].
  rewrite !not_elem_of_cons in Hnot. destruct Hnot as (Hc & Hh & Hs & _).
  unfold SetState, map_get, KeywordMap.
  rewrite !lookup_insert_ne, lookup_empty by congruence.
  reflexivity.
Qed.

Lemma SetState_CodeSize_written_witness :
  SetState pad_hash sd0 creator (KeywordCodeSize pad_hash) Hash256_zero ledger0 =
    Return tt (ctx_SetAccountData creator (KeywordCodeSize pad_hash) Hash256_zero ledger0) /\
  ctx_AccountData creator (KeywordCodeSize pad_hash)
    (ctx_SetAccountData creator (KeywordCodeSize pad_hash) Hash256_zero ledger0)
    = Hash256_zero.
Proof.
  apply (SetState_CodeSize_written pad_hash sd0 creator Hash256_zero ledger0).
  apply (bool_decide_unpack _). vm_compute. exact I.
Defined.

(** C10: at an address where no account is registered the account lookup
    fails, and [Empty], [GetBalance], [SubBalance] and [AddBalance] panic
    with the lookup's error, leaving the context as it was. *)
Theorem unregistered_account_panics (hash : bytes -> bytes) (sd : StateDB)
    (addr : bytes) (b : N) (ctx : Context) :
  AccountMap (Top ctx) !! addr = None ->
  exists err,
    ctx_Account addr ctx = Err err /\
    Empty hash sd addr ctx = Panic (PanicErr err) ctx /\
    GetBalance sd addr ctx = Panic (PanicErr err) ctx /\
    SubBalance sd addr b ctx = Panic (PanicErr err) ctx /\
    AddBalance sd addr b ctx = Panic (PanicErr err) ctx.
Proof.
  intros Hnone. exists ErrNotExistAccount.
  assert (Hacc : ctx_Account addr ctx = Err ErrNotExistAccount)
    by (unfold ctx_Account; by rewrite Hnone).
  split; [exact Hacc|].
  unfold Empty, GetBalance, SubBalance, AddBalance, bind.
  rewrite Hacc. cbn [must panic]. done.
Qed.

Lemma unregistered_account_panics_witness :
  exists err,
    ctx_Account stranger ledger0 = Err err /\
    Empty pad_hash sd0 stranger ledger0 = Panic (PanicErr err) ledger0 /\
    GetBalance sd0 stranger ledger0 = Panic (PanicErr err) ledger0 /\
    SubBalance sd0 stranger 1%N ledger0 = Panic (PanicErr err) ledger0 /\
    AddBalance sd0 stranger 1%N ledger0 = Panic (PanicErr err) ledger0.
Proof.
  apply (unregistered_account_panics pad_hash sd0 stranger 1%N ledger0).
  vm_compute. reflexivity.
Defined.

(** ** Balance transfer primitives *)

Lemma ctx_Account_store (x y : bytes) (acc : Account) (ctx : Context) :
  ctx_Account x (ctx_store y acc ctx) =
  if decide (x = y) then Ok acc else ctx_Account x ctx.
Proof.
  unfold ctx_Account, ctx_store, with_top. simpl.
  destruct (decide (x = y)) as [->|Hne].
  - by rewrite lookup_insert_eq.
  - by rewrite lookup_insert_ne.
Qed.

Lemma balance_of_store (x y : bytes) (acc : Account) (ctx : Context) :
  balance_of x (ctx_store y acc ctx) =
  if decide (x = y) then Balance_ acc else balance_of x ctx.
Proof.
  unfold balance_of. rewrite ctx_Account_store.
  by destruct (decide (x = y)).
Qed.

Lemma GetBalance_runs (sd : StateDB) (a : bytes) (ctx : Context) :
  GetBalance sd a ctx =
  match ctx_Account a ctx with
  | Ok acc => Return (acc_Balance acc) ctx
  | Err err => Panic (PanicErr err) ctx
  end.
Proof. unfold GetBalance, bind. by destruct (ctx_Account a ctx). Qed.

(** C8: [CanTransfer(state, a, amt)] returns true exactly when
    [GetBalance(a)] returns a balance that is not less than [amt] (and false
    exactly when it returns a smaller one), and the state is left as it was
    in every outcome. *)
Theorem CanTransfer_iff_balance (sd : StateDB) (a : bytes) (amt : N) (ctx : Context) :
  outcome_ctx (CanTransfer sd a amt ctx) = ctx /\
  (outcome_value (CanTransfer sd a amt ctx) = Some true <->
     exists b, GetBalance sd a ctx = Return b ctx /\ (amt <= b)%N) /\
  (outcome_value (CanTransfer sd a amt ctx) = Some false <->
     exists b, GetBalance sd a ctx = Return b ctx /\ (b < amt)%N).
Proof.
  unfold CanTransfer, bind. cbn [db_GetBalance StateDB_VMStateDB].
  rewrite GetBalance_runs.
  destruct (ctx_Account a ctx) as [acc|err]; cbn [ret outcome_ctx outcome_value].
  - split; [reflexivity|]. unfold Less.
    destruct (N.ltb_spec (acc_Balance acc) amt) as [Hlt|Hge]; cbn [negb].
    + split; split.
      * discriminate.
      * intros (b & [= <-] & Hb). lia.
      * intros _. exists (acc_Balance acc). split; [reflexivity|lia].
      * reflexivity.
    + split; split.
      * intros _. exists (acc_Balance acc). split; [reflexivity|lia].
      * reflexivity.
      * discriminate.
      * intros (b & [= <-] & Hb). lia.
  - split; [reflexivity|].
    split; split; try discriminate; intros (b & Hb & _); discriminate.
Qed.

Lemma Transfer_zero (sd : StateDB) (s r : bytes) (ctx : Context) :
  Transfer sd s r 0%N ctx = Return tt ctx.
Proof. reflexivity. Qed.

(** C7 (as amended): [Transfer] with a zero amount does nothing, in every
    state.  For a nonzero amount, a registered sender whose balance is not
    less than the amount and a registered recipient, [Transfer] returns
    with the sender debited and the recipient credited by exactly that
    amount, every other balance unchanged, and the total across the two
    accounts conserved. *)
Theorem Transfer_moves_amount (sd : StateDB) (s r : bytes) (ctx : Context) :
  Transfer sd s r 0%N ctx = Return tt ctx /\
  forall (amt : N) (accS accR : Account),
    amt <> 0%N ->
    ctx_Account s ctx = Ok accS ->
    ctx_Account r ctx = Ok accR ->
    (amt <= acc_Balance accS)%N ->
    exists ctx',
      Transfer sd s r amt ctx = Return tt ctx' /\
      (forall x,
         balance_of x ctx' =
         (balance_of x ctx - (if decide (x = s) then amt else 0)
          + (if decide (x = r) then amt else 0))%N) /\
      pair_total s r ctx' = pair_total s r ctx.
Proof.
  split; [apply Transfer_zero|].
  intros amt accS accR Hnz Hs Hr Hle.
  assert (Hbal : forall x,
    balance_of x
      (ctx_store r
         (acc_AddBalance
            (if decide (r = s)
             then {| Address_ := Address_ accS; Name_ := Name_ accS;
                     Balance_ := (Balance_ accS - amt)%N |}
             else accR) amt)
         (ctx_store s
            {| Address_ := Address_ accS; Name_ := Name_ accS;
               Balance_ := (Balance_ accS - amt)%N |} ctx)) =
    (balance_of x ctx - (if decide (x = s) then amt else 0)
     + (if decide (x = r) then amt else 0))%N).
  { intros x. rewrite !balance_of_store.
    assert (Hbs : balance_of s ctx = Balance_ accS)
      by (unfold balance_of; by rewrite Hs).
    assert (Hbr : balance_of r ctx = Balance_ accR)
      by (unfold balance_of; by rewrite Hr).
    unfold acc_Balance in Hle.
    repeat case_decide; subst; simpl; rewrite ?Hbs, ?Hbr; try done; lia. }
  eexists. split; [|split; [exact Hbal|]].
  - unfold Transfer. replace (IsZero amt) with false
      by (symmetry; unfold IsZero; by apply N.eqb_neq).
    cbn [negb db_SubBalance db_AddBalance StateDB_VMStateDB].
    unfold SubBalance, AddBalance, bind.
    rewrite Hs. cbn [must ret]. unfold acc_SubBalance, Less.
    replace (Balance_ accS <? amt)%N with false
      by (symmetry; apply N.ltb_ge; exact Hle).
    cbn [must ret modify]. rewrite ctx_Account_store, Hr.
    destruct (decide (r = s)); reflexivity.
  - unfold pair_total. destruct (decide (s = r)) as [->|Hsr].
    + rewrite Hbal. destruct (decide (r = r)); [|done].
      assert (balance_of r ctx = Balance_ accS)
        by (unfold balance_of; by rewrite Hs).
      unfold acc_Balance in Hle. lia.
    + rewrite !Hbal.
      destruct (decide (s = s)); [|done]. destruct (decide (r = r)); [|done].
      destruct (decide (s = r)); [done|]. destruct (decide (r = s)); [done|].
      assert (balance_of s ctx = Balance_ accS)
        by (unfold balance_of; by rewrite Hs).
      unfold acc_Balance in Hle. lia.
Qed.

Lemma Transfer_moves_amount_witness :
  exists ctx',
    Transfer sd0 creator payee 7%N ledger0 = Return tt ctx' /\
    (forall x,
       balance_of x ctx' =
       (balance_of x ledger0 - (if decide (x = creator) then 7 else 0)
        + (if decide (x = payee) then 7 else 0))%N) /\
    pair_total creator payee ctx' = pair_total creator payee ledger0.
Proof.
  apply (proj2 (Transfer_moves_amount sd0 creator payee ledger0) 7%N
           {| Address_ := creator; Name_ := "creator"; Balance_ := 1000%N |}
           {| Address_ := payee; Name_ := "payee"; Balance_ := 5%N |}).
  - lia.
  - vm_compute. reflexivity.
  - vm_compute. reflexivity.
  - simpl. lia.
Defined.

(** C7 as stated fails where the sender holds less than the amount: the
    debit is refused, [Transfer] panics and no balance moves. *)
Lemma Transfer_insufficient_not_moved :
  ~ transfer_moves sd0 payee creator 7%N ledger0.
Proof.
  intros (ctx' & Hrun & _).
  assert (Hpanic : Transfer sd0 payee creator 7%N ledger0
                   = Panic (PanicErr ErrInsufficientBalance) ledger0)
    by (vm_compute; reflexivity).
  rewrite Hpanic in Hrun. discriminate.
Qed.

(** ** The apply phase *)

Lemma Revert_Snapshot (ctx : Context) :
  ctx_Revert (ctx_Snapshot ctx).1 (ctx_Snapshot ctx).2 = ctx.
Proof.
  destruct ctx as [top stack]. unfold ctx_Snapshot, ctx_Revert, handle_open.
  cbn [fst snd Stack Top length].
  rewrite Nat.leb_refl, Nat.sub_diag. reflexivity.
Qed.

Lemma Revert_intact (ctx ctx' : Context) :
  checkpoint_intact ctx ctx' ->
  ctx_Revert (ctx_Snapshot ctx).1 ctx' = ctx.
Proof.
  unfold checkpoint_intact, ctx_Snapshot, ctx_Revert, handle_open.
  cbn [fst]. intros Hdrop.
  assert (Hlen : (S (length (Stack ctx)) <= length (Stack ctx'))%nat).
  { apply (f_equal length) in Hdrop.
    rewrite length_drop in Hdrop. cbn [length] in Hdrop. lia. }
  replace (S (length (Stack ctx)) <=? length (Stack ctx'))%nat with true
    by (symmetry; by apply Nat.leb_le).
  cbn [Nat.leb andb]. rewrite Hdrop. by destruct ctx.
Qed.

Lemma Seq_Snapshot (a : bytes) (ctx : Context) :
  ctx_Seq a (ctx_Snapshot ctx).2 = ctx_Seq a ctx.
Proof. reflexivity. Qed.

(** C2: when the transaction's sequence is not the creator's current
    sequence plus one (the [uint64] increment the code computes), the apply
    phase returns the sequence error and the context afterwards equals the
    context before: every balance, sequence and slot is unchanged. *)
Theorem apply_bad_sequence
    (NewAddress : Coordinate -> N -> bytes)
    (evm_Create : vm_Context -> StateDB -> vm_Config -> bytes -> bytes ->
                  string -> bytes -> N -> M (bytes * option error))
    (now : Z) (Fee : N) (tx : CreateContract) (coord : Coordinate) (ctx : Context) :
  Seq tx <> uint64_succ (ctx_Seq (From tx) ctx) ->
  apply NewAddress evm_Create now Fee tx coord ctx
  = Return (None, Some ErrInvalidSequence) ctx.
Proof.
  intros Hseq. unfold apply, recover_, defer_.
  pose proof (Revert_Snapshot ctx) as Hrev.
  destruct (ctx_Snapshot ctx) as [sn ctx1] eqn:Hsnap. cbn [fst snd] in Hrev.
  unfold apply_steps, bind, gets.
  replace (ctx_Seq (From tx) ctx1) with (ctx_Seq (From tx) ctx)
    by (rewrite <- (Seq_Snapshot (From tx) ctx), Hsnap; reflexivity).
  replace (Seq tx =? uint64_succ (ctx_Seq (From tx) ctx))%N with false
    by (symmetry; by apply N.eqb_neq).
  cbn [negb ret]. by rewrite Hrev.
Qed.

Lemma apply_bad_sequence_witness :
  apply coord_address timestamp_vm 0 10%N
    {| tx_Base := tx_Base tx0; Seq_ := 3; From_ := creator; Name := "Foo";
       Code := Code tx0; Params := [] |} coord0 ledger0
  = Return (None, Some ErrInvalidSequence) ledger0.
Proof.
  apply apply_bad_sequence. vm_compute. discriminate.
Defined.

(** Inside the steps only the virtual machine can panic. *)
Lemma apply_steps_panic_from_vm
    (NewAddress : Coordinate -> N -> bytes)
    (evm_Create : vm_Context -> StateDB -> vm_Config -> bytes -> bytes ->
                  string -> bytes -> N -> M (bytes * option error))
    (now : Z) (Fee : N) (tx : CreateContract) (coord : Coordinate) (sn : nat)
    (ctx1 ctxp : Context) (e : PanicValue) :
  apply_steps NewAddress evm_Create now Fee tx coord sn ctx1 = Panic e ctxp ->
  exists vctx cfg ctx2,
    vc_Time vctx = now /\
    evm_Create vctx {| Coord := coord |} cfg (From tx) (NewAddress coord 0%N)
      (Name tx) (Code tx ++ Params tx) 0%N ctx2 = Panic e ctxp.
Proof.
  unfold apply_steps, bind, gets, modify, ret.
  destruct (negb _); [discriminate|].
  destruct (ctx_Account _ _) as [fromAcc|]; [|discriminate].
  destruct (acc_SubBalance fromAcc Fee) as [fromAcc'|]; [|discriminate].
  destruct (ctx_IsExistAccount _ _) as [[|]|]; try discriminate.
  destruct (ctx_IsExistAccountName _ _) as [[|]|]; try discriminate.
  match goal with
  | |- context [evm_Create ?v ?sd ?cfg ?a ?b ?n ?c ?z ?x] =>
      destruct (evm_Create v sd cfg a b n c z x) as [[code [err|]] ctx3|e' ctx3] eqn:Hvm;
      try discriminate; intros [= <- <-]; exists v, cfg, x; split; [reflexivity|exact Hvm]
  end.
Qed.

(** The end-to-end scenario: the creator pays the fee of 10 and moves to
    sequence 1, the contract account exists under the derived address with
    the code and its size, and the deployed code is returned. *)
Example scenario_deploy :
  let run := apply coord_address plain_vm 0 10%N tx0 coord0 ledger0 in
  let contract := coord_address coord0 0 in
  outcome_value run = Some (Some [Byte.xaa; Byte.xbb], None) /\
  balance_of creator (outcome_ctx run) = 990%N /\
  ctx_Seq creator (outcome_ctx run) = 1%N /\
  Name_ <$> AccountMap (Top (outcome_ctx run)) !! contract = Some "Foo" /\
  outcome_value (GetCode pad_hash sd0 contract (outcome_ctx run))
    = Some [Byte.xaa; Byte.xbb] /\
  outcome_value (GetCodeSize pad_hash sd0 contract (outcome_ctx run)) = Some 2 /\
  Stack (outcome_ctx run) = [].
Proof. vm_compute. done. Qed.

(** The same transaction applied once more at the same coordinate: the
    derived address is taken, and the ledger stays as the first run left
    it. *)
Example scenario_replay :
  let ledger1 := outcome_ctx (apply coord_address plain_vm 0 10%N tx0 coord0 ledger0) in
  let tx1 := {| tx_Base := tx_Base tx0; Seq_ := 2; From_ := creator;
                Name := "Bar"; Code := Code tx0; Params := [] |} in
  apply coord_address plain_vm 0 10%N tx1 coord0 ledger1
  = Return (None, Some ErrExistAddress) ledger1.
Proof. vm_compute. reflexivity. Qed.

(** C4: the apply phase never ends in a panic.  When its steps panic with
    a value [e], it returns no code and an error: [e] itself when [e] is an
    error, the virtual-machine-fault error otherwise; the deferred revert
    of the opening snapshot has run on the context the panic left, and it
    restores the context of before the call when that checkpoint is still
    in place. *)
Theorem apply_recovers_panics
    (NewAddress : Coordinate -> N -> bytes)
    (evm_Create : vm_Context -> StateDB -> vm_Config -> bytes -> bytes ->
                  string -> bytes -> N -> M (bytes * option error))
    (now : Z) (Fee : N) (tx : CreateContract) (coord : Coordinate) (ctx : Context) :
  (exists r ctx', apply NewAddress evm_Create now Fee tx coord ctx = Return r ctx') /\
  forall (e : PanicValue) (ctxp : Context),
    apply_steps NewAddress evm_Create now Fee tx coord
      (ctx_Snapshot ctx).1 (ctx_Snapshot ctx).2 = Panic e ctxp ->
    apply NewAddress evm_Create now Fee tx coord ctx
    = Return (None,
              Some (match e with
                    | PanicErr err => err
                    | PanicStr _ => ErrVirtualMachinePanic
                    end))
        (ctx_Revert (ctx_Snapshot ctx).1 ctxp) /\
    (checkpoint_intact ctx ctxp -> ctx_Revert (ctx_Snapshot ctx).1 ctxp = ctx).
Proof.
  split.
  - unfold apply, recover_, defer_.
    destruct (ctx_Snapshot ctx) as [sn ctx1].
    destruct (apply_steps _ _ _ _ _ _ _ _); eauto.
  - intros e ctxp Hpanic. split; [|apply Revert_intact].
    unfold apply, recover_, defer_.
    destruct (ctx_Snapshot ctx) as [sn ctx1]. cbn [fst snd] in *.
    rewrite Hpanic. reflexivity.
Qed.

Lemma apply_recovers_panics_witness :
  apply coord_address reserved_write_vm 0 10%N tx0 coord0 ledger0
  = Return (None, Some ErrVirtualMachinePanic) ledger0.
Proof.
  destruct (proj2 (apply_recovers_panics coord_address reserved_write_vm
                     0 10%N tx0 coord0 ledger0)
              (PanicStr "reserved keyword")
              (outcome_ctx
                 (apply_steps coord_address reserved_write_vm 0 10%N tx0 coord0
                    (ctx_Snapshot ledger0).1 (ctx_Snapshot ledger0).2)))
    as [Hret Hrev].
  - vm_compute. reflexivity.
  - rewrite Hret, Hrev; [reflexivity|]. vm_compute. reflexivity.
Defined.

(** ** The validate phase *)

Lemma validate_many_signers
    (Accounter_Validate : Context -> Account -> list bytes -> option error)
    (allowedKeyMap : gmap (list Byte.byte) bool) (tx : CreateContract)
    (signers : list bytes) (ctx : Context) :
  (ctx_Seq (From tx) ctx < Seq tx)%N ->
  (1 < length signers)%nat ->
  validate Accounter_Validate allowedKeyMap tx signers ctx
  = Return (Some ErrInvalidSignerCount) ctx.
Proof.
  intros Hseq Hlen. unfold validate, bind, gets.
  replace (Seq tx <=? ctx_Seq (From tx) ctx)%N with false
    by (symmetry; apply N.leb_gt; exact Hseq).
  replace (1 <? length signers)%nat with true
    by (symmetry; apply Nat.ltb_lt; exact Hlen).
  reflexivity.
Qed.

(** C5 at the failing input: with the sequence check passed and an empty
    signer set, the validate phase does not return the signer-count error;
    it indexes the empty slice and panics. *)
Theorem validate_no_signer_panics
    (Accounter_Validate : Context -> Account -> list bytes -> option error)
    (allowedKeyMap : gmap (list Byte.byte) bool) (tx : CreateContract)
    (ctx : Context) :
  (ctx_Seq (From tx) ctx < Seq tx)%N ->
  validate Accounter_Validate allowedKeyMap tx [] ctx
  = Panic (PanicErr (RuntimeError "index out of range")) ctx.
Proof.
  intros Hseq. unfold validate, bind, gets.
  replace (Seq tx <=? ctx_Seq (From tx) ctx)%N with false
    by (symmetry; apply N.leb_gt; exact Hseq).
  reflexivity.
Qed.

Lemma validate_no_signer_panics_witness :
  validate accept_all ∅ tx0 [] ledger0
  = Panic (PanicErr (RuntimeError "index out of range")) ledger0.
Proof.
  apply validate_no_signer_panics. vm_compute. reflexivity.
Defined.

(** C6 at the failing input: the apply phase hands the wall clock to the
    virtual machine.  Two runs of the same transaction with the same fee
    and coordinate from the same ledger, one second apart, deploy
    different code. *)
Theorem apply_depends_on_clock :
  outcome_value (apply coord_address timestamp_vm 1 10%N tx0 coord0 ledger0)
  = Some (Some [Byte.xaa; Byte.xbb; Byte.x01; Byte.x00; Byte.x00; Byte.x00], None) /\
  outcome_value (apply coord_address timestamp_vm 2 10%N tx0 coord0 ledger0)
  = Some (Some [Byte.xaa; Byte.xbb; Byte.x02; Byte.x00; Byte.x00; Byte.x00], None) /\
  outcome_ctx (apply coord_address timestamp_vm 1 10%N tx0 coord0 ledger0)
  <> outcome_ctx (apply coord_address timestamp_vm 2 10%N tx0 coord0 ledger0).
Proof.
  split; [vm_compute; reflexivity|]. split; [vm_compute; reflexivity|].
  intros Heq.
  apply (f_equal (fun c => ctx_AccountData (coord_address coord0 0)
                             (KeywordCode pad_hash) c)) in Heq.
  vm_compute in Heq. discriminate.
Qed.

(** ** Wire encoding *)

Lemma read_step_written {A} (W : Wire A) (a : A) (bs rest : bytes) :
  wire_ok W ->
  wire_write W a = Ok bs ->
  read_step W (bs ++ rest) = Ok (a, Z.of_nat (length bs), rest).
Proof.
  intros HW Hw. unfold read_step. rewrite (HW a bs rest Hw).
  rewrite length_app. do 3 f_equal. lia.
Qed.

Lemma reads_in_order_ReadFrom
    (wBase : Wire Base) (wUint64 : Wire N) (wAddress : Wire (list Byte.byte))
    (wString : Wire string) (wBytes : Wire (list Byte.byte))
    (tx0 tx : CreateContract) (r r' : bytes) :
  reads_in_order wBase wUint64 wAddress wString wBytes r tx r' ->
  exists n,
    ReadFrom wBase wUint64 wAddress wString wBytes tx0 r = ((tx, n, None), r').
Proof.
  intros (r1 & r2 & r3 & r4 & r5 & H1 & H2 & H3 & H4 & H5 & H6).
  unfold ReadFrom, read_step.
  rewrite H1, H2, H3, H4, H5, H6. cbn.
  destruct tx. eexists. reflexivity.
Qed.

(** Closes the branch where a component read has failed: no chain of six
    successful reads starts at the same reader. *)
Ltac no_reads :=
  right; do 4 eexists; split; [reflexivity|];
  let G1 := fresh in let G2 := fresh in let G3 := fresh in
  let G4 := fresh in let G5 := fresh in let G6 := fresh in
  intros (? & ? & ? & ? & ? & ? & ? & G1 & G2 & G3 & G4 & G5 & G6);
  congruence.

Lemma ReadFrom_error_or_reads
    (wBase : Wire Base) (wUint64 : Wire N) (wAddress : Wire (list Byte.byte))
    (wString : Wire string) (wBytes : Wire (list Byte.byte))
    (tx0 : CreateContract) (r : bytes) :
  (exists tx n r',
      ReadFrom wBase wUint64 wAddress wString wBytes tx0 r = ((tx, n, None), r') /\
      reads_in_order wBase wUint64 wAddress wString wBytes r tx r') \/
  (exists tx n e r',
      ReadFrom wBase wUint64 wAddress wString wBytes tx0 r = ((tx, n, Some e), r') /\
      ~ exists tx1 r1, reads_in_order wBase wUint64 wAddress wString wBytes r tx1 r1).
Proof.
  unfold ReadFrom, read_step.
  destruct (wire_read wBase r) as [[b r1]|e1] eqn:H1; [|no_reads].
  destruct (wire_read wUint64 r1) as [[v r2]|e2] eqn:H2; [|no_reads].
  destruct (wire_read wAddress r2) as [[a r3]|e3] eqn:H3; [|no_reads].
  destruct (wire_read wString r3) as [[s r4]|e4] eqn:H4; [|no_reads].
  destruct (wire_read wBytes r4) as [[c r5]|e5] eqn:H5; [|no_reads].
  destruct (wire_read wBytes r5) as [[p r6]|e6] eqn:H6; [|no_reads].
  left. do 3 eexists. split; [reflexivity|].
  exists r1, r2, r3, r4, r5. done.
Qed.

(** C9: when the wire helpers read back what they write, [ReadFrom] on
    the bytes [WriteTo] produced (followed by anything) fills the receiver
    with the transaction that was written, reports the same byte count and
    leaves the reader at the byte after it; and [ReadFrom] reports an
    error whenever one of the six component reads, taken in wire order,
    fails. *)
Theorem ReadFrom_WriteTo
    (wBase : Wire Base) (wUint64 : Wire N) (wAddress : Wire (list Byte.byte))
    (wString : Wire string) (wBytes : Wire (list Byte.byte)) :
  wire_ok wBase -> wire_ok wUint64 -> wire_ok wAddress ->
  wire_ok wString -> wire_ok wBytes ->
  (forall (tx tx' : CreateContract) (w w' rest : bytes) (n : Z),
     WriteTo wBase wUint64 wAddress wString wBytes tx w = ((n, None), w') ->
     exists bs,
       w' = w ++ bs /\ n = Z.of_nat (length bs) /\
       ReadFrom wBase wUint64 wAddress wString wBytes tx' (bs ++ rest)
       = ((tx, n, None), rest)) /\
  (forall (tx' : CreateContract) (r : bytes),
     (~ exists tx r', reads_in_order wBase wUint64 wAddress wString wBytes r tx r') ->
     exists tx n e r',
       ReadFrom wBase wUint64 wAddress wString wBytes tx' r = ((tx, n, Some e), r')).
Proof.
  intros HB HU HA HS HY. split.
  - intros tx tx' w w' rest n. unfold WriteTo, write_step.
    destruct (wire_write wBase (tx_Base tx)) as [b1|] eqn:E1; [|discriminate].
    destruct (wire_write wUint64 (Seq_ tx)) as [b2|] eqn:E2; [|discriminate].
    destruct (wire_write wAddress (From_ tx)) as [b3|] eqn:E3; [|discriminate].
    destruct (wire_write wString (Name tx)) as [b4|] eqn:E4; [|discriminate].
    destruct (wire_write wBytes (Code tx)) as [b5|] eqn:E5; [|discriminate].
    destruct (wire_write wBytes (Params tx)) as [b6|] eqn:E6; [|discriminate].
    intros [= <- <-].
    exists (b1 ++ b2 ++ b3 ++ b4 ++ b5 ++ b6).
    split; [by rewrite <- !app_assoc|].
    split; [rewrite !length_app; lia|].
    unfold ReadFrom. rewrite <- !app_assoc.
    rewrite (read_step_written wBase _ _ _ HB E1).
    rewrite (read_step_written wUint64 _ _ _ HU E2).
    rewrite (read_step_written wAddress _ _ _ HA E3).
    rewrite (read_step_written wString _ _ _ HS E4).
    rewrite (read_step_written wBytes _ _ _ HY E5).
    rewrite (read_step_written wBytes _ _ _ HY E6).
    cbn [tx_Base Seq_ From_ Name Code Params]. destruct tx. reflexivity.
  - intros tx' r Hno.
    destruct (ReadFrom_error_or_reads wBase wUint64 wAddress wString wBytes tx' r)
      as [(tx & n & r' & _ & Hin)|(tx & n & e & r' & Hrun & _)].
    + exfalso. apply Hno. eauto.
    + eauto.
Qed.

(** The closed wire helpers meet the law. *)

Lemma to_N_byte_of_N (n : N) : (n < 256)%N -> Byte.to_N (byte_of_N n) = n.
Proof.
  intros Hn. unfold byte_of_N.
  destruct (Byte.of_N n) as [b|] eqn:E; simpl.
  - by apply Byte.to_of_N.
  - apply Byte.of_N_None_iff in E. lia.
Qed.

Lemma le_bytes_length (k : nat) (v : N) : length (le_bytes k v) = k.
Proof. revert v. induction k as [|k IH]; intros v; simpl; [done|by rewrite IH]. Qed.

Lemma le_value_le_bytes (k : nat) (v : N) :
  (v < 256 ^ N.of_nat k)%N -> le_value (le_bytes k v) = v.
Proof.
  revert v. induction k as [|k IH]; intros v Hv.
  - simpl in *. lia.
  - cbn [le_bytes le_value].
    rewrite to_N_byte_of_N by (apply N.mod_lt; lia).
    rewrite IH.
    + pose proof (N.div_mod v 256). lia.
    + rewrite Nat2N.inj_succ, N.pow_succ_r' in Hv.
      apply N.Div0.div_lt_upper_bound. lia.
Qed.

Lemma take_drop_written (bs rest : bytes) (k : nat) :
  length bs = k ->
  (length (bs ++ rest) <? k)%nat = false /\
  take k (bs ++ rest) = bs /\ drop k (bs ++ rest) = rest.
Proof.
  intros <-. split; [|split].
  - apply Nat.ltb_ge. rewrite length_app. lia.
  - apply take_app_length.
  - apply drop_app_length.
Qed.

Lemma uint_wire_ok (k : nat) : wire_ok (uint_wire k).
Proof.
  intros v bs rest. cbn [uint_wire wire_write wire_read].
  destruct (N.ltb_spec v (256 ^ N.of_nat k)) as [Hv|]; [|discriminate].
  intros [= <-].
  destruct (take_drop_written (le_bytes k v) rest k (le_bytes_length k v))
    as (-> & -> & ->).
  by rewrite le_value_le_bytes.
Qed.

Lemma fixed_wire_ok (k : nat) : wire_ok (fixed_wire k).
Proof.
  intros a bs rest. cbn [fixed_wire wire_write wire_read].
  destruct (Nat.eqb_spec (length a) k) as [Hk|]; [|discriminate].
  intros [= <-].
  by destruct (take_drop_written a rest k Hk) as (-> & -> & ->).
Qed.

Lemma bytes_wire_ok : wire_ok bytes_wire.
Proof.
  intros a bs rest. cbn [bytes_wire wire_write wire_read].
  destruct (Byte.of_N (N.of_nat (length a))) as [b|] eqn:E; [|discriminate].
  intros [= <-]. cbn [app].
  apply Byte.to_of_N in E. rewrite E, Nat2N.id.
  by destruct (take_drop_written a rest (length a) eq_refl) as (-> & -> & ->).
Qed.

Lemma string_wire_ok : wire_ok string_wire.
Proof.
  intros s bs rest. cbn [string_wire wire_write wire_read]. intros Hw.
  rewrite (bytes_wire_ok _ _ rest Hw).
  by rewrite String.string_of_list_byte_of_string.
Qed.

Lemma base_wire_ok : wire_ok base_wire.
Proof.
  intros [t ts] bs rest. cbn [base_wire wire_write wire_read Type_ Timestamp_].
  destruct (wire_write (uint_wire 1) t) as [b1|] eqn:E1;
    destruct (wire_write (uint_wire 8) ts) as [b2|] eqn:E2; try discriminate.
  intros [= <-]. rewrite <- app_assoc.
  rewrite (uint_wire_ok 1 _ _ _ E1), (uint_wire_ok 8 _ _ _ E2). reflexivity.
Qed.

Lemma ReadFrom_WriteTo_witness :
  exists bs,
    (WriteTo base_wire (uint_wire 8) address_wire string_wire bytes_wire tx0 []).2
    = [] ++ bs /\
    45 = Z.of_nat (length bs) /\
    ReadFrom base_wire (uint_wire 8) address_wire string_wire bytes_wire
      {| tx_Base := {| Type_ := 0; Timestamp_ := 0 |}; Seq_ := 0; From_ := [];
         Name := ""; Code := []; Params := [] |} (bs ++ [])
    = ((tx0, 45, None), []).
Proof.
  apply (proj1 (ReadFrom_WriteTo base_wire (uint_wire 8) address_wire
                  string_wire bytes_wire
                  base_wire_ok (uint_wire_ok 8) (fixed_wire_ok 20)
                  string_wire_ok bytes_wire_ok)).
  vm_compute. reflexivity.
Defined.

(** The transaction of the scenario on the closed wire format: 45 bytes
    that read back to it, and a cut after 30 bytes is a decode failure. *)
Example tx0_round_trip :
  let wire := WriteTo base_wire (uint_wire 8) address_wire string_wire bytes_wire tx0 [] in
  wire.1 = (45, None) /\
  ReadFrom base_wire (uint_wire 8) address_wire string_wire bytes_wire
    {| tx_Base := {| Type_ := 0; Timestamp_ := 0 |}; Seq_ := 0; From_ := [];
       Name := ""; Code := []; Params := [] |} wire.2
  = ((tx0, 45, None), []) /\
  (ReadFrom base_wire (uint_wire 8) address_wire string_wire bytes_wire tx0
     (take 30 wire.2)).1.2 = Some short_read.
Proof. vm_compute. done. Qed.

(** * Further properties of the adapter *)

Lemma SetState_free_writes (hash : bytes -> bytes) (sd : StateDB)
    (a h v : bytes) (ctx : Context) :
  h ∉ [KeywordCode hash; KeywordCodeHash hash; KeywordSuicide hash] ->
  SetState hash sd a h v ctx = Return tt (ctx_SetAccountData a h v ctx).
Proof.
  intros Hfree. rewrite !not_elem_of_cons in Hfree.
  destruct Hfree as (Hc & Hh & Hs & _).
  unfold SetState, map_get, KeywordMap.
  rewrite !lookup_insert_ne, lookup_empty by congruence.
  reflexivity.
Qed.

(** X1: [SetState] panics with the reserved-keyword value, writing
    nothing, exactly for the three keys [init] registers; for every other
    key it returns with that one slot written. *)
Theorem SetState_reserved_exactly (hash : bytes -> bytes) (sd : StateDB)
    (a h v : bytes) (ctx : Context) :
  SetState hash sd a h v ctx =
  if bool_decide (h ∈ [KeywordCode hash; KeywordCodeHash hash; KeywordSuicide hash])
  then Panic (PanicStr "reserved keyword") ctx
  else Return tt (ctx_SetAccountData a h v ctx).
Proof.
  case_bool_decide as Hin.
  - by apply SetState_registered_panics.
  - by apply SetState_free_writes.
Qed.



(** X3: a 32-byte value stored with [SetState] under a key that is not
    registered is what [GetState] returns for that account and key
    afterwards, and every other slot reads as before. *)
Theorem GetState_after_SetState (hash : bytes -> bytes) (sd : StateDB)
    (a h v : bytes) (ctx : Context) :
  h ∉ [KeywordCode hash; KeywordCodeHash hash; KeywordSuicide hash] ->
  length v = 32%nat ->
  exists ctx',
    SetState hash sd a h v ctx = Return tt ctx' /\
    GetState sd a h ctx' = Return v ctx' /\
    forall a' h', (a', h') <> (a, h) ->
      outcome_value (GetState sd a' h' ctx') = outcome_value (GetState sd a' h' ctx).
Proof.
  intros Hfree Hlen. eexists. split; [|split].
  - by apply SetState_free_writes.
  - unfold GetState, bind, gets, ret. rewrite AccountData_Set_eq, Hlen.
    cbn [Nat.ltb Nat.leb]. by rewrite copy_full.
  - intros a' h' Hne. unfold GetState, bind, gets, ret. cbn [outcome_value].
    rewrite AccountData_Set_ne by congruence. reflexivity.
Qed.

Lemma GetState_after_SetState_witness :
  exists ctx',
    SetState pad_hash sd0 creator (pad_hash [Byte.x01]) (pad_hash [Byte.x2a]) ledger0
    = Return tt ctx' /\
    GetState sd0 creator (pad_hash [Byte.x01]) ctx' = Return (pad_hash [Byte.x2a]) ctx' /\
    forall a' h', (a', h') <> (creator, pad_hash [Byte.x01]) ->
      outcome_value (GetState sd0 a' h' ctx') = outcome_value (GetState sd0 a' h' ledger0).
Proof.
  apply (GetState_after_SetState pad_hash sd0 creator (pad_hash [Byte.x01])
           (pad_hash [Byte.x2a]) ledger0).
  - apply (bool_decide_unpack _). vm_compute. exact I.
  - reflexivity.
Defined.

Lemma Z_of_byte_range (b : Byte.byte) : 0 <= Z_of_byte b < 256.
Proof. unfold Z_of_byte. pose proof (Byte.to_N_bounded b). lia. Qed.

Lemma Uint32_range (bs : bytes) : 0 <= Uint32 bs < 2 ^ 32.
Proof.
  unfold Uint32.
  destruct bs as [|b0 [|b1 [|b2 [|b3 [|]]]]]; try (cbn; lia).
  pose proof (Z_of_byte_range b0). pose proof (Z_of_byte_range b1).
  pose proof (Z_of_byte_range b2). pose proof (Z_of_byte_range b3).
  rewrite !Z.shiftl_mul_pow2 by lia.
  rewrite (lor_add_disjoint (Z_of_byte b2 * 2 ^ 16) (Z_of_byte b3) 24) by lia.
  replace (Z_of_byte b2 * 2 ^ 16 + Z_of_byte b3 * 2 ^ 24)
    with ((Z_of_byte b2 + Z_of_byte b3 * 2 ^ 8) * 2 ^ 16) by lia.
  rewrite (lor_add_disjoint (Z_of_byte b1 * 2 ^ 8) _ 16) by lia.
  replace (Z_of_byte b1 * 2 ^ 8 + (Z_of_byte b2 + Z_of_byte b3 * 2 ^ 8) * 2 ^ 16)
    with ((Z_of_byte b1 + Z_of_byte b2 * 2 ^ 8 + Z_of_byte b3 * 2 ^ 16) * 2 ^ 8)
    by lia.
  rewrite (lor_add_disjoint (Z_of_byte b0) _ 8) by lia.
  lia.
Qed.

(** X4: [GetCodeSize] returns a number from 0 to 2^32 - 1 in every state,
    whatever the size slot holds, and leaves the context as it is; a slot
    that is not four bytes long reads as 0. *)
Theorem GetCodeSize_range (hash : bytes -> bytes) (sd : StateDB)
    (a : bytes) (ctx : Context) :
  exists n,
    GetCodeSize hash sd a ctx = Return n ctx /\
    0 <= n < 2 ^ 32 /\
    (length (ctx_AccountData a (KeywordCodeSize hash) ctx) <> 4%nat -> n = 0).
Proof.
  unfold GetCodeSize, bind, gets, ret. eexists. split; [reflexivity|].
  destruct (Nat.eqb_spec (length (ctx_AccountData a (KeywordCodeSize hash) ctx)) 4).
  - split; [apply Uint32_range|]. intros Hne. contradiction.
  - split; [lia|]. reflexivity.
Qed.

(** X5: for every digest and every code, also one of 2^32 bytes or more,
    [GetCodeSize] after [SetCode] returns the length of the code modulo
    2^32: the size slot is written last, so no coincidence of slot keys
    disturbs it. *)
Theorem SetCode_size_mod (hash : bytes -> bytes) (sd : StateDB)
    (a c : bytes) (ctx : Context) :
  exists ctx',
    SetCode hash sd a c ctx = Return tt ctx' /\
    GetCodeSize hash sd a ctx' = Return (Z.of_nat (length c) mod 2 ^ 32) ctx'.
Proof.
  eexists. split; [apply SetCode_runs|].
  pose proof (GetCodeSize_after_SetCode hash sd a c ctx) as H.
  rewrite SetCode_runs in H. exact H.
Qed.

Lemma with_top_data_eq (d1 d2 : ContextData) (stack : list ContextData) :
  d1 = d2 -> {| Top := d1; Stack := stack |} = {| Top := d2; Stack := stack |}.
Proof. by intros ->. Qed.

(** X6: a second [SetCode] on the same account replaces the record of
    the first without trace: the context after both calls equals the
    context after the second call alone. *)
Theorem SetCode_overwrites (hash : bytes -> bytes) (sd : StateDB)
    (a c1 c2 : bytes) (ctx : Context) :
  outcome_ctx (SetCode hash sd a c2 (outcome_ctx (SetCode hash sd a c1 ctx)))
  = outcome_ctx (SetCode hash sd a c2 ctx).
Proof.
  rewrite !SetCode_runs. cbn [outcome_ctx].
  unfold ctx_SetAccountData, with_top. cbn [Top Stack AccountMap SeqMap AccountDataMap Events].
  apply with_top_data_eq. f_equal.
  apply map_eq. intros k.
  destruct (decide ((a, KeywordCodeSize hash) = k)) as [<-|H3];
    [by rewrite !lookup_insert_eq|].
  rewrite !(lookup_insert_ne _ (a, KeywordCodeSize hash)) by done.
  destruct (decide ((a, KeywordCodeHash hash) = k)) as [<-|H2];
    [by rewrite !lookup_insert_eq|].
  rewrite !(lookup_insert_ne _ (a, KeywordCodeHash hash)) by done.
  destruct (decide ((a, KeywordCode hash) = k)) as [<-|H1];
    [by rewrite !lookup_insert_eq|].
  rewrite !lookup_insert_ne by done.
  reflexivity.
Qed.

(** X7: [SetCode] on an account writes that account's slots only: the
    accounts with their balances, the sequences, the events and the open
    checkpoints are as before, and so is every slot of every other
    account. *)
Theorem SetCode_frame (hash : bytes -> bytes) (sd : StateDB)
    (a c : bytes) (ctx : Context) :
  let ctx' := outcome_ctx (SetCode hash sd a c ctx) in
  AccountMap (Top ctx') = AccountMap (Top ctx) /\
  SeqMap (Top ctx') = SeqMap (Top ctx) /\
  Events (Top ctx') = Events (Top ctx) /\
  Stack ctx' = Stack ctx /\
  forall b k, b <> a -> ctx_AccountData b k ctx' = ctx_AccountData b k ctx.
Proof.
  rewrite SetCode_runs. cbn [outcome_ctx]. repeat split.
  intros b k Hne. rewrite !AccountData_Set_ne by congruence. reflexivity.
Qed.

Lemma SetCode_frame_witness :
  ctx_AccountData payee (KeywordCode pad_hash)
    (outcome_ctx (SetCode pad_hash sd0 creator [Byte.xaa] ledger0))
  = ctx_AccountData payee (KeywordCode pad_hash) ledger0.
Proof.
  apply (SetCode_frame pad_hash sd0 creator [Byte.xaa] ledger0).
  vm_compute. discriminate.
Defined.

(** X8: [Suicide] reports success and only marks the account: afterwards
    [HasSuicided] is true for it, the mark of every other account reads as
    before, and the accounts with their balances are still there. *)
Theorem Suicide_marks (hash : bytes -> bytes) (sd : StateDB) (a : bytes) (ctx : Context) :
  exists ctx',
    Suicide hash sd a ctx = Return true ctx' /\
    HasSuicided hash sd a ctx' = Return true ctx' /\
    AccountMap (Top ctx') = AccountMap (Top ctx) /\
    forall b, b <> a ->
      outcome_value (HasSuicided hash sd b ctx') = outcome_value (HasSuicided hash sd b ctx).
Proof.
  eexists. split; [reflexivity|]. split; [|split; [reflexivity|]].
  - unfold HasSuicided, bind, gets, ret. rewrite AccountData_Set_eq. reflexivity.
  - intros b Hne. unfold HasSuicided, bind, gets, ret. cbn [outcome_value].
    rewrite AccountData_Set_ne by congruence. reflexivity.
Qed.

Lemma Suicide_marks_witness :
  outcome_value
    (HasSuicided pad_hash sd0 payee (outcome_ctx (Suicide pad_hash sd0 creator ledger0)))
  = outcome_value (HasSuicided pad_hash sd0 payee ledger0).
Proof.
  destruct (Suicide_marks pad_hash sd0 creator ledger0) as (ctx' & Hrun & _ & _ & Hother).
  rewrite Hrun. cbn [outcome_ctx]. apply Hother. vm_compute. discriminate.
Defined.

Lemma Empty_runs (hash : bytes -> bytes) (sd : StateDB) (a : bytes)
    (acc : Account) (ctx : Context) :
  ctx_Account a ctx = Ok acc ->
  Empty hash sd a ctx =
  Return ((ctx_Seq a ctx =? 0)%N && IsZero (acc_Balance acc)
          && (default 0 (outcome_value (GetCodeSize hash sd a ctx)) =? 0)) ctx.
Proof.
  intros Hacc. unfold Empty, bind, gets. rewrite Hacc. cbn [must ret].
  destruct (ctx_Seq a ctx =? 0)%N; cbn [negb andb]; [|reflexivity].
  destruct (IsZero (acc_Balance acc)); cbn [negb andb]; reflexivity.
Qed.

(** X9: an account that has just received code of at least one and less
    than 2^32 bytes is not empty, whatever its balance and sequence. *)
Theorem Empty_after_SetCode (hash : bytes -> bytes) (sd : StateDB)
    (a c : bytes) (acc : Account) (ctx : Context) :
  ctx_Account a ctx = Ok acc ->
  (0 < length c)%nat ->
  Z.of_nat (length c) < 2 ^ 32 ->
  Empty hash sd a (outcome_ctx (SetCode hash sd a c ctx))
  = Return false (outcome_ctx (SetCode hash sd a c ctx)).
Proof.
  intros Hacc Hpos Hsmall.
  rewrite (Empty_runs hash sd a acc) by (rewrite SetCode_runs; exact Hacc).
  rewrite GetCodeSize_after_SetCode. cbn [outcome_value default from_option id].
  rewrite Z.mod_small by lia.
  replace (Z.of_nat (length c) =? 0) with false by (symmetry; apply Z.eqb_neq; lia).
  by rewrite andb_false_r.
Qed.

Lemma Empty_after_SetCode_witness :
  Empty pad_hash sd0 payee (outcome_ctx (SetCode pad_hash sd0 payee [Byte.xaa] ledger0))
  = Return false (outcome_ctx (SetCode pad_hash sd0 payee [Byte.xaa] ledger0)).
Proof.
  apply (Empty_after_SetCode pad_hash sd0 payee [Byte.xaa]
           {| Address_ := payee; Name_ := "payee"; Balance_ := 5%N |} ledger0).
  - vm_compute. reflexivity.
  - simpl. lia.
  - simpl. lia.
Defined.



(** ** Checkpoints *)

Lemma keeps_stack_bind {A B} (m : M A) (k : A -> M B) :
  keeps_stack m -> (forall a, keeps_stack (k a)) -> keeps_stack (bind m k).
Proof.
  intros Hm Hk ctx. unfold bind. specialize (Hm ctx).
  destruct (m ctx) as [a ctx'|v ctx']; cbn [outcome_ctx] in *.
  - rewrite (Hk a ctx'). exact Hm.
  - exact Hm.
Qed.

Lemma keeps_stack_ret {A} (a : A) : keeps_stack (ret a).
Proof. intros ctx. reflexivity. Qed.

Lemma keeps_stack_panic {A} (v : PanicValue) : keeps_stack (@panic A v).
Proof. intros ctx. reflexivity. Qed.

Lemma keeps_stack_gets {A} (f : Context -> A) : keeps_stack (gets f).
Proof. intros ctx. reflexivity. Qed.

Lemma keeps_stack_with_top (f : ContextData -> ContextData) :
  keeps_stack (modify (with_top f)).
Proof. intros ctx. reflexivity. Qed.

Lemma keeps_stack_must_ctx {A} (f : Context -> result A) :
  keeps_stack (fun ctx => must (f ctx) ctx).
Proof. intros ctx. by destruct (f ctx). Qed.

Lemma keeps_stack_must {A} (r : result A) : keeps_stack (must r).
Proof. intros ctx. by destruct r. Qed.

Create HintDb stack discriminated.
#[local] Hint Resolve keeps_stack_ret keeps_stack_panic keeps_stack_gets
  keeps_stack_must_ctx keeps_stack_must : stack.

(** Splits a computation at its binds and closes the pieces. *)
Ltac stack_steps :=
  repeat first
    [ apply keeps_stack_bind; [|intros ?]
    | apply keeps_stack_with_top
    | solve [auto with stack]
    | match goal with
      | |- keeps_stack (if ?b then _ else _) => destruct b
      | |- keeps_stack (match ?r with Ok _ => _ | Err _ => _ end) => destruct r
      end ].

Lemma CreateAccount_keeps_stack (sd : StateDB) (addr : bytes) (name : string) :
  keeps_stack (CreateAccount sd addr name).
Proof.
  intros ctx. unfold CreateAccount, bind.
  cbn [Accounter_NewByTypeName String.eqb must ret]. cbn.
  unfold ctx_CreateAccount. by destruct (AccountMap (Top ctx) !! _).
Qed.

Lemma SubBalance_keeps_stack (sd : StateDB) (addr : bytes) (b : N) :
  keeps_stack (SubBalance sd addr b).
Proof. unfold SubBalance, ctx_store. stack_steps. Qed.

Lemma AddBalance_keeps_stack (sd : StateDB) (addr : bytes) (b : N) :
  keeps_stack (AddBalance sd addr b).
Proof. unfold AddBalance, ctx_store. stack_steps. Qed.

Lemma SetCode_keeps_stack (hash : bytes -> bytes) (sd : StateDB) (a c : bytes) :
  keeps_stack (SetCode hash sd a c).
Proof. unfold SetCode, ctx_SetAccountData. stack_steps. Qed.

Lemma SetState_keeps_stack (hash : bytes -> bytes) (sd : StateDB) (a h v : bytes) :
  keeps_stack (SetState hash sd a h v).
Proof. unfold SetState, ctx_SetAccountData. stack_steps. Qed.

Lemma Transfer_keeps_stack (sd : StateDB) (s r : bytes) (amt : N) :
  keeps_stack (Transfer sd s r amt).
Proof.
  unfold Transfer. cbn [db_SubBalance db_AddBalance StateDB_VMStateDB].
  destruct (negb (IsZero amt)); [|apply keeps_stack_ret].
  apply keeps_stack_bind; [apply SubBalance_keeps_stack|intros _].
  apply AddBalance_keeps_stack.
Qed.

(** X11: no operation of the adapter other than the three checkpoint
    operations opens or consumes a checkpoint, in any outcome, panics
    included; the same holds for the two transfer primitives. *)
Theorem adapter_keeps_stack (hash : bytes -> bytes) (sd : StateDB)
    (a b h v c : bytes) (name : string) (amt : N) (l : Log) :
  keeps_stack (CreateAccount sd a name) /\
  keeps_stack (SubBalance sd a amt) /\
  keeps_stack (AddBalance sd a amt) /\
  keeps_stack (GetBalance sd a) /\
  keeps_stack (GetSeq sd a) /\
  keeps_stack (AddSeq sd a) /\
  keeps_stack (GetCodeHash hash sd a) /\
  keeps_stack (GetCode hash sd a) /\
  keeps_stack (SetCode hash sd a c) /\
  keeps_stack (GetCodeSize hash sd a) /\
  keeps_stack (GetState sd a h) /\
  keeps_stack (SetState hash sd a h v) /\
  keeps_stack (Suicide hash sd a) /\
  keeps_stack (HasSuicided hash sd a) /\
  keeps_stack (Exist sd a) /\
  keeps_stack (Empty hash sd a) /\
  keeps_stack (AddLog sd l) /\
  keeps_stack (CanTransfer sd a amt) /\
  keeps_stack (Transfer sd a b amt).
Proof.
  repeat split;
    try apply CreateAccount_keeps_stack; try apply SubBalance_keeps_stack;
    try apply AddBalance_keeps_stack; try apply SetCode_keeps_stack;
    try apply SetState_keeps_stack; try apply Transfer_keeps_stack.
  - unfold GetBalance. stack_steps.
  - unfold Empty, GetCodeSize. stack_steps.
  - unfold CanTransfer. cbn [db_GetBalance StateDB_VMStateDB].
    unfold GetBalance. stack_steps.
Qed.

Lemma Revert_kept (ctx ctx' : Context) :
  Stack ctx' = Top ctx :: Stack ctx ->
  ctx_Revert (S (length (Stack ctx))) ctx' = ctx.
Proof.
  intros Hst. apply (Revert_intact ctx ctx').
  unfold checkpoint_intact. rewrite Hst. cbn [length].
  by rewrite Nat.sub_diag.
Qed.

Lemma Revert_closed (n : nat) (ctx : Context) :
  (length (Stack ctx) < n)%nat -> ctx_Revert n ctx = ctx.
Proof.
  intros Hlt. unfold ctx_Revert, handle_open.
  replace (n <=? length (Stack ctx))%nat with false
    by (symmetry; apply Nat.leb_gt; lia).
  by rewrite andb_false_r.
Qed.

(** X12: a checkpoint taken with [Snapshot] brackets whatever runs next
    without touching the checkpoints: [RevertToSnapshot] with its handle
    gives back exactly the context of before the [Snapshot], also after a
    panic; [CommitSnapshot] keeps the working layer and closes the
    checkpoint, and a [RevertToSnapshot] with the committed handle then
    changes nothing. *)
Theorem Snapshot_bracket {A} (sd : StateDB) (m : M A) (ctx : Context) :
  keeps_stack m ->
  exists n ctx1,
    Snapshot sd ctx = Return n ctx1 /\
    RevertToSnapshot sd n (outcome_ctx (m ctx1)) = Return tt ctx /\
    CommitSnapshot sd n (outcome_ctx (m ctx1))
      = Return tt {| Top := Top (outcome_ctx (m ctx1)); Stack := Stack ctx |} /\
    RevertToSnapshot sd n
      {| Top := Top (outcome_ctx (m ctx1)); Stack := Stack ctx |}
      = Return tt {| Top := Top (outcome_ctx (m ctx1)); Stack := Stack ctx |}.
Proof.
  intros Hm. do 2 eexists. split; [reflexivity|].
  pose proof (Hm {| Top := Top ctx; Stack := Top ctx :: Stack ctx |}) as Hst.
  cbn [Stack] in Hst.
  split; [|split].
  - unfold RevertToSnapshot, modify. f_equal. by apply Revert_kept.
  - unfold CommitSnapshot, modify, ctx_Commit, handle_open.
    rewrite Hst. cbn [length Nat.leb].
    rewrite Nat.leb_refl, Nat.sub_diag. reflexivity.
  - unfold RevertToSnapshot, modify. f_equal. apply Revert_closed. cbn [Stack]. lia.
Qed.

Lemma Snapshot_bracket_witness :
  exists n ctx1,
    Snapshot sd0 ledger0 = Return n ctx1 /\
    RevertToSnapshot sd0 n
      (outcome_ctx (SetCode pad_hash sd0 creator [Byte.xaa] ctx1)) = Return tt ledger0 /\
    CommitSnapshot sd0 n (outcome_ctx (SetCode pad_hash sd0 creator [Byte.xaa] ctx1))
      = Return tt
          {| Top := Top (outcome_ctx (SetCode pad_hash sd0 creator [Byte.xaa] ctx1));
             Stack := Stack ledger0 |} /\
    RevertToSnapshot sd0 n
      {| Top := Top (outcome_ctx (SetCode pad_hash sd0 creator [Byte.xaa] ctx1));
         Stack := Stack ledger0 |}
      = Return tt
          {| Top := Top (outcome_ctx (SetCode pad_hash sd0 creator [Byte.xaa] ctx1));
             Stack := Stack ledger0 |}.
Proof.
  apply (Snapshot_bracket sd0 (SetCode pad_hash sd0 creator [Byte.xaa]) ledger0).
  apply SetCode_keeps_stack.
Defined.

(** X13: a run of [AddLog] calls appends one event per entry, in call
    order, each carrying the adapter's coordinate and the entry's fields;
    the events already emitted, the accounts, the sequences, the slots and
    the checkpoints stay as they are. *)
Theorem AddLog_appends (sd : StateDB) (logs : list Log) (ctx : Context) :
  exists ctx',
    for_each (AddLog sd) logs ctx = Return tt ctx' /\
    Events (Top ctx') = Events (Top ctx) ++ map (log_event sd) logs /\
    AccountMap (Top ctx') = AccountMap (Top ctx) /\
    SeqMap (Top ctx') = SeqMap (Top ctx) /\
    AccountDataMap (Top ctx') = AccountDataMap (Top ctx) /\
    Stack ctx' = Stack ctx.
Proof.
  revert ctx. induction logs as [|l logs IH]; intros ctx.
  - exists ctx. cbn. by rewrite app_nil_r.
  - destruct (IH (ctx_EmitEvent (log_event sd l) ctx))
      as (ctx' & Hrun & Hev & Hacc & Hseq & Hdata & Hst).
    exists ctx'. split; [exact Hrun|].
    rewrite Hev, Hacc, Hseq, Hdata, Hst. cbn.
    by rewrite <- app_assoc.
Qed.

(** * Further properties of the transfer primitives *)

(** X14: when the registered sender holds less than a (nonzero) amount,
    [Transfer] panics with the debit's error before anything is written:
    the context is as before. *)
Theorem Transfer_insufficient (sd : StateDB) (s r : bytes) (amt : N)
    (accS : Account) (ctx : Context) :
  ctx_Account s ctx = Ok accS ->
  (acc_Balance accS < amt)%N ->
  Transfer sd s r amt ctx = Panic (PanicErr ErrInsufficientBalance) ctx.
Proof.
  intros Hs Hlt. unfold Transfer.
  replace (IsZero amt) with false by (symmetry; apply N.eqb_neq; lia).
  cbn [negb db_SubBalance StateDB_VMStateDB]. unfold SubBalance, bind.
  rewrite Hs. cbn [must ret]. unfold acc_SubBalance, Less.
  replace (Balance_ accS <? amt)%N with true
    by (symmetry; apply N.ltb_lt; exact Hlt).
  reflexivity.
Qed.

Lemma Transfer_insufficient_witness :
  Transfer sd0 payee creator 7%N ledger0
  = Panic (PanicErr ErrInsufficientBalance) ledger0.
Proof.
  apply (Transfer_insufficient sd0 payee creator 7%N
           {| Address_ := payee; Name_ := "payee"; Balance_ := 5%N |} ledger0).
  - vm_compute. reflexivity.
  - simpl. lia.
Defined.

(** X15: [Transfer] is not atomic.  With a sufficient sender and no
    account registered for the recipient, it panics with the lookup's
    error after the debit: in the context the panic leaves, the sender
    already holds the amount less, and nobody was credited. *)
Theorem Transfer_missing_recipient (sd : StateDB) (s r : bytes) (amt : N)
    (accS : Account) (ctx : Context) :
  amt <> 0%N ->
  ctx_Account s ctx = Ok accS ->
  (amt <= acc_Balance accS)%N ->
  AccountMap (Top ctx) !! r = None ->
  exists ctx',
    Transfer sd s r amt ctx = Panic (PanicErr ErrNotExistAccount) ctx' /\
    balance_of s ctx' = (balance_of s ctx - amt)%N /\
    forall x, x <> s -> balance_of x ctx' = balance_of x ctx.
Proof.
  intros Hnz Hs Hle Hr.
  assert (Hsr : r <> s).
  { intros ->. unfold ctx_Account in Hs. by rewrite Hr in Hs. }
  eexists. split; [|split].
  - unfold Transfer. replace (IsZero amt) with false
      by (symmetry; unfold IsZero; by apply N.eqb_neq).
    cbn [negb db_SubBalance db_AddBalance StateDB_VMStateDB].
    unfold SubBalance, AddBalance, bind.
    rewrite Hs. cbn [must ret]. unfold acc_SubBalance, Less.
    replace (Balance_ accS <? amt)%N with false
      by (symmetry; apply N.ltb_ge; exact Hle).
    cbn [must ret modify]. rewrite ctx_Account_store.
    rewrite decide_False by exact Hsr.
    unfold ctx_Account. rewrite Hr. reflexivity.
  - rewrite balance_of_store, decide_True by reflexivity.
    unfold balance_of. rewrite Hs. reflexivity.
  - intros x Hx. rewrite balance_of_store. by rewrite decide_False.
Qed.

Lemma Transfer_missing_recipient_witness :
  exists ctx',
    Transfer sd0 creator stranger 7%N ledger0
    = Panic (PanicErr ErrNotExistAccount) ctx' /\
    balance_of creator ctx' = (balance_of creator ledger0 - 7)%N /\
    forall x, x <> creator -> balance_of x ctx' = balance_of x ledger0.
Proof.
  apply (Transfer_missing_recipient sd0 creator stranger 7%N
           {| Address_ := creator; Name_ := "creator"; Balance_ := 1000%N |} ledger0).
  - lia.
  - vm_compute. reflexivity.
  - simpl. lia.
  - vm_compute. reflexivity.
Defined.

Lemma Transfer_sufficient_returns (sd : StateDB) (s r : bytes) (amt : N)
    (accS accR : Account) (ctx : Context) :
  amt <> 0%N ->
  ctx_Account s ctx = Ok accS ->
  ctx_Account r ctx = Ok accR ->
  (amt <= acc_Balance accS)%N ->
  exists ctx', Transfer sd s r amt ctx = Return tt ctx'.
Proof.
  intros Hnz Hs Hr Hle.
  unfold Transfer. replace (IsZero amt) with false
    by (symmetry; unfold IsZero; by apply N.eqb_neq).
  cbn [negb db_SubBalance db_AddBalance StateDB_VMStateDB].
  unfold SubBalance, AddBalance, bind.
  rewrite Hs. cbn [must ret]. unfold acc_SubBalance, Less.
  replace (Balance_ accS <? amt)%N with false
    by (symmetry; apply N.ltb_ge; exact Hle).
  cbn [must ret modify]. rewrite ctx_Account_store, Hr.
  destruct (decide (r = s)); eexists; reflexivity.
Qed.

(** X16: [CanTransfer] is the guard [Transfer] needs: when it has
    returned true for the sender and the amount, and the recipient is
    registered, [Transfer] returns without a panic. *)
Theorem CanTransfer_guards_Transfer (sd : StateDB) (s r : bytes) (amt : N)
    (accR : Account) (ctx : Context) :
  CanTransfer sd s amt ctx = Return true ctx ->
  ctx_Account r ctx = Ok accR ->
  exists ctx', Transfer sd s r amt ctx = Return tt ctx'.
Proof.
  intros Hcan Hr.
  destruct (N.eq_dec amt 0%N) as [->|Hnz]; [eexists; apply Transfer_zero|].
  unfold CanTransfer, bind in Hcan. cbn [db_GetBalance StateDB_VMStateDB] in Hcan.
  rewrite GetBalance_runs in Hcan.
  destruct (ctx_Account s ctx) as [accS|] eqn:Hs; [|discriminate].
  cbn [ret] in Hcan. injection Hcan as Hless.
  apply negb_true_iff, N.ltb_ge in Hless.
  by apply (Transfer_sufficient_returns sd s r amt accS accR).
Qed.

Lemma CanTransfer_guards_Transfer_witness :
  exists ctx', Transfer sd0 creator payee 7%N ledger0 = Return tt ctx'.
Proof.
  apply (CanTransfer_guards_Transfer sd0 creator payee 7%N
           {| Address_ := payee; Name_ := "payee"; Balance_ := 5%N |} ledger0).
  - vm_compute. reflexivity.
  - vm_compute. reflexivity.
Defined.

(** * Further properties of the validate phase *)

(** X17: the validate phase only reads: in every outcome, the panic on
    an empty signer slice included, the context is the one it was given. *)
Theorem validate_reads_only
    (Accounter_Validate : Context -> Account -> list bytes -> option error)
    (allowedKeyMap : gmap (list Byte.byte) bool) (tx : CreateContract)
    (signers : list bytes) (ctx : Context) :
  outcome_ctx (validate Accounter_Validate allowedKeyMap tx signers ctx) = ctx.
Proof.
  unfold validate, bind, gets, ret.
  destruct (_ <=? _)%N; [reflexivity|].
  destruct (_ <? _)%nat; [reflexivity|].
  destruct signers as [|s0 rest]; [reflexivity|]. cbn [index0 ret].
  destruct (negb _); [reflexivity|].
  destruct (ctx_Account _ _); [|reflexivity].
  destruct (Accounter_Validate _ _ _); reflexivity.
Qed.

(** X18: the validate phase accepts (returns no error) exactly when the
    transaction's sequence is above the creator's current one, there is one
    signer, that signer is in the allow-list, the creator is registered and
    the account policy accepts the signer. *)
Theorem validate_accepts_iff
    (Accounter_Validate : Context -> Account -> list bytes -> option error)
    (allowedKeyMap : gmap (list Byte.byte) bool) (tx : CreateContract)
    (signers : list bytes) (ctx : Context) :
  validate Accounter_Validate allowedKeyMap tx signers ctx = Return None ctx <->
  (ctx_Seq (From tx) ctx < Seq tx)%N /\
  exists s fromAcc,
    signers = [s] /\
    map_get allowedKeyMap s = true /\
    ctx_Account (From tx) ctx = Ok fromAcc /\
    Accounter_Validate ctx fromAcc signers = None.
Proof.
  unfold validate, bind, gets, ret.
  destruct (N.leb_spec (Seq tx) (ctx_Seq (From tx) ctx)) as [Hle|Hlt].
  { split; [discriminate|]. intros [Hlt _]. lia. }
  destruct signers as [|s0 [|s1 rest]].
  - cbn. split; [discriminate|]. intros (_ & s & acc & [=] & _).
  - cbn [length Nat.ltb Nat.leb index0 ret].
    destruct (map_get allowedKeyMap s0) eqn:Hallow; cbn [negb].
    + destruct (ctx_Account (From tx) ctx) as [acc|e] eqn:Hacc.
      * destruct (Accounter_Validate ctx acc [s0]) as [e|] eqn:Hpol.
        -- split; [discriminate|].
           intros (_ & s & acc' & [= <-] & _ & [= <-] & Hp). congruence.
        -- split; [|reflexivity]. intros _. split; [exact Hlt|].
           exists s0, acc. done.
      * split; [discriminate|]. intros (_ & s & acc' & _ & _ & [=] & _).
    + split; [discriminate|].
      intros (_ & s & acc & [= <-] & Hs & _). congruence.
  - cbn [length Nat.ltb Nat.leb]. split; [discriminate|].
    intros (_ & s & acc & [=] & _).
Qed.

(** X19: the sequence check comes first: a transaction whose sequence is
    not above the creator's current one is answered with the sequence
    error for every signer slice, the empty one included (no panic
    there). *)
Theorem validate_stale_sequence
    (Accounter_Validate : Context -> Account -> list bytes -> option error)
    (allowedKeyMap : gmap (list Byte.byte) bool) (tx : CreateContract)
    (signers : list bytes) (ctx : Context) :
  (Seq tx <= ctx_Seq (From tx) ctx)%N ->
  validate Accounter_Validate allowedKeyMap tx signers ctx
  = Return (Some ErrInvalidSequence) ctx.
Proof.
  intros Hle. unfold validate, bind, gets.
  replace (Seq tx <=? ctx_Seq (From tx) ctx)%N with true
    by (symmetry; apply N.leb_le; exact Hle).
  reflexivity.
Qed.

Lemma validate_stale_sequence_witness :
  validate accept_all ∅
    {| tx_Base := tx_Base tx0; Seq_ := 0; From_ := creator; Name := "Foo";
       Code := []; Params := [] |} [] ledger0
  = Return (Some ErrInvalidSequence) ledger0.
Proof.
  apply validate_stale_sequence. vm_compute. discriminate.
Defined.

(** X20: the allow-list decides for a single signer.  Once its key is
    unregistered the validate phase answers not-allowed; once it is
    registered the answer is that of the creator lookup and the account
    policy. *)
Theorem validate_allow_list
    (Accounter_Validate : Context -> Account -> list bytes -> option error)
    (allowedKeyMap : gmap (list Byte.byte) bool) (tx : CreateContract)
    (k : bytes) (ctx : Context) :
  (ctx_Seq (From tx) ctx < Seq tx)%N ->
  validate Accounter_Validate (UnregisterAllowedKey k allowedKeyMap) tx [k] ctx
    = Return (Some ErrNotAllowed) ctx /\
  validate Accounter_Validate (RegisterAllowedKey k allowedKeyMap) tx [k] ctx
    = match ctx_Account (From tx) ctx with
      | Err err => Return (Some err) ctx
      | Ok fromAcc => Return (Accounter_Validate ctx fromAcc [k]) ctx
      end.
Proof.
  intros Hlt. unfold validate, bind, gets, ret.
  replace (Seq tx <=? ctx_Seq (From tx) ctx)%N with false
    by (symmetry; apply N.leb_gt; exact Hlt).
  cbn [length Nat.ltb Nat.leb index0 ret].
  unfold map_get, UnregisterAllowedKey, RegisterAllowedKey.
  rewrite lookup_delete_eq, lookup_insert_eq. cbn [default from_option id negb].
  split; [reflexivity|].
  destruct (ctx_Account (From tx) ctx) as [acc|]; [|reflexivity].
  destruct (Accounter_Validate ctx acc [k]); reflexivity.
Qed.

Lemma validate_allow_list_witness :
  validate accept_all (UnregisterAllowedKey payee ∅) tx0 [payee] ledger0
    = Return (Some ErrNotAllowed) ledger0 /\
  validate accept_all (RegisterAllowedKey payee ∅) tx0 [payee] ledger0
    = match ctx_Account (From tx0) ledger0 with
      | Err err => Return (Some err) ledger0
      | Ok fromAcc => Return (accept_all ledger0 fromAcc [payee]) ledger0
      end.
Proof.
  apply validate_allow_list. vm_compute. reflexivity.
Defined.

(** * Further properties of the apply phase *)

Lemma IsExistAccountName_true (name : string) (ctx : Context) (b : bool) :
  ctx_IsExistAccountName name ctx = Ok b -> (b = true <-> name_taken name ctx).
Proof.
  unfold ctx_IsExistAccountName, name_taken. intros [= <-].
  rewrite existsb_exists. split.
  - intros ([k acc] & Hin & Heq). exists k, acc.
    apply list_elem_of_In, elem_of_map_to_list in Hin.
    apply String.eqb_eq in Heq. done.
  - intros (k & acc & Hlook & Hname). exists (k, acc). split.
    + by apply list_elem_of_In, elem_of_map_to_list.
    + by apply String.eqb_eq.
Qed.

Lemma before_vm_Stack (Fee : N) (tx : CreateContract) (fromAcc : Account)
    (ctx : Context) :
  Stack (before_vm Fee tx fromAcc ctx) = Top ctx :: Stack ctx.
Proof. reflexivity. Qed.

Lemma before_vm_AccountMap (Fee : N) (tx : CreateContract) (fromAcc : Account)
    (ctx : Context) :
  AccountMap (Top (before_vm Fee tx fromAcc ctx))
  = <[From tx := {| Address_ := Address_ fromAcc; Name_ := Name_ fromAcc;
                    Balance_ := (Balance_ fromAcc - Fee)%N |}]>
      (AccountMap (Top ctx)).
Proof. reflexivity. Qed.

Lemma before_vm_name_taken (Fee : N) (tx : CreateContract) (fromAcc : Account)
    (name : string) (ctx : Context) :
  ctx_Account (From tx) ctx = Ok fromAcc ->
  name_taken name (before_vm Fee tx fromAcc ctx) <-> name_taken name ctx.
Proof.
  intros Hacc. unfold ctx_Account in Hacc.
  destruct (AccountMap (Top ctx) !! From tx) as [acc0|] eqn:Hfrom; [|discriminate].
  injection Hacc as ->.
  unfold name_taken. rewrite before_vm_AccountMap. split.
  - intros (k & acc & Hlook & Hname).
    destruct (decide (k = From tx)) as [->|Hne].
    + rewrite lookup_insert_eq in Hlook. injection Hlook as <-.
      exists (From tx), fromAcc. done.
    + rewrite lookup_insert_ne in Hlook by done. exists k, acc. done.
  - intros (k & acc & Hlook & Hname).
    destruct (decide (k = From tx)) as [->|Hne].
    + eexists (From tx), _. rewrite lookup_insert_eq. split; [reflexivity|].
      cbn [Name_]. congruence.
    + exists k, acc. by rewrite lookup_insert_ne.
Qed.

Lemma IsExistAccountName_before_vm (Fee : N) (tx : CreateContract)
    (fromAcc : Account) (name : string) (ctx : Context) :
  ctx_Account (From tx) ctx = Ok fromAcc ->
  ctx_IsExistAccountName name (before_vm Fee tx fromAcc ctx)
  = ctx_IsExistAccountName name ctx.
Proof.
  intros Hacc.
  destruct (ctx_IsExistAccountName name (before_vm Fee tx fromAcc ctx))
    as [b1|] eqn:H1; [|discriminate].
  destruct (ctx_IsExistAccountName name ctx) as [b2|] eqn:H2; [|discriminate].
  apply IsExistAccountName_true in H1, H2.
  rewrite (before_vm_name_taken Fee tx fromAcc name ctx Hacc) in H1.
  f_equal. destruct b1, b2; try reflexivity.
  - symmetry. apply H2, H1. reflexivity.
  - apply H1, H2. reflexivity.
Qed.

Lemma IsExistAccount_before_vm (Fee : N) (tx : CreateContract)
    (fromAcc : Account) (a : bytes) (ctx : Context) :
  ctx_Account (From tx) ctx = Ok fromAcc ->
  ctx_IsExistAccount a (before_vm Fee tx fromAcc ctx) = ctx_IsExistAccount a ctx.
Proof.
  intros Hacc. unfold ctx_Account in Hacc.
  destruct (AccountMap (Top ctx) !! From tx) as [acc0|] eqn:Hfrom; [|discriminate].
  unfold ctx_IsExistAccount. rewrite before_vm_AccountMap. f_equal.
  destruct (decide (a = From tx)) as [->|Hne].
  - rewrite lookup_insert_eq, Hfrom. reflexivity.
  - by rewrite lookup_insert_ne.
Qed.

(** The steps up to the call of the virtual machine, for a transaction
    that passes the checks before it. *)
Lemma apply_steps_reach_vm
    (NewAddress : Coordinate -> N -> bytes)
    (evm_Create : vm_Context -> StateDB -> vm_Config -> bytes -> bytes ->
                  string -> bytes -> N -> M (bytes * option error))
    (now : Z) (Fee : N) (tx : CreateContract) (coord : Coordinate) (sn : nat)
    (fromAcc : Account) (ctx : Context) :
  Seq tx = uint64_succ (ctx_Seq (From tx) ctx) ->
  ctx_Account (From tx) ctx = Ok fromAcc ->
  (Fee <= acc_Balance fromAcc)%N ->
  ctx_IsExistAccount (NewAddress coord 0%N) ctx = Ok false ->
  ctx_IsExistAccountName (Name tx) ctx = Ok false ->
  apply_steps NewAddress evm_Create now Fee tx coord sn (ctx_Snapshot ctx).2 =
  match evm_Create (apply_vctx now tx) {| Coord := coord |} apply_vmCfg
          (From tx) (NewAddress coord 0%N) (Name tx) (Code tx ++ Params tx) 0%N
          (before_vm Fee tx fromAcc ctx) with
  | Return (_, Some err) ctx3 => Return (None, Some err) ctx3
  | Return (code, None) ctx3 => Return (Some code, None) (ctx_Commit sn ctx3)
  | Panic e ctx3 => Panic e ctx3
  end.
Proof.
  intros Hseq Hacc Hfee Haddr Hname.
  pose proof (IsExistAccount_before_vm Fee tx fromAcc (NewAddress coord 0%N) ctx Hacc) as Ha.
  pose proof (IsExistAccountName_before_vm Fee tx fromAcc (Name tx) ctx Hacc) as Hn.
  rewrite Haddr in Ha. rewrite Hname in Hn.
  unfold apply_steps, bind, gets, modify, ret.
  rewrite Seq_Snapshot, <- Hseq, N.eqb_refl. cbn [negb].
  replace (ctx_Account (From tx) (ctx_AddSeq (From tx) (ctx_Snapshot ctx).2))
    with (ctx_Account (From tx) ctx) by reflexivity.
  rewrite Hacc. unfold acc_SubBalance, Less.
  replace (Balance_ fromAcc <? Fee)%N with false
    by (symmetry; apply N.ltb_ge; exact Hfee).
  fold (before_vm Fee tx fromAcc ctx). rewrite Ha, Hn.
  fold (apply_vctx now tx). fold apply_vmCfg.
  destruct (evm_Create _ _ _ _ _ _ _ _ _) as [[code [err|]] ctx3|e ctx3]; reflexivity.
Qed.

Lemma Commit_intact (ctx ctx' : Context) :
  checkpoint_intact ctx ctx' ->
  ctx_Commit (S (length (Stack ctx))) ctx' = {| Top := Top ctx'; Stack := Stack ctx |}.
Proof.
  unfold checkpoint_intact, ctx_Commit, handle_open. intros Hdrop.
  assert (Hlen : (S (length (Stack ctx)) <= length (Stack ctx'))%nat).
  { apply (f_equal length) in Hdrop.
    rewrite length_drop in Hdrop. cbn [length] in Hdrop. lia. }
  replace (S (length (Stack ctx)) <=? length (Stack ctx'))%nat with true
    by (symmetry; by apply Nat.leb_le).
  cbn [Nat.leb andb]. f_equal.
  replace (S (length (Stack ctx') - S (length (Stack ctx))))
    with (length (Stack ctx') - S (length (Stack ctx)) + 1)%nat by lia.
  rewrite <- drop_drop, Hdrop. reflexivity.
Qed.

Lemma apply_unfold
    (NewAddress : Coordinate -> N -> bytes)
    (evm_Create : vm_Context -> StateDB -> vm_Config -> bytes -> bytes ->
                  string -> bytes -> N -> M (bytes * option error))
    (now : Z) (Fee : N) (tx : CreateContract) (coord : Coordinate) (ctx : Context) :
  apply NewAddress evm_Create now Fee tx coord ctx =
  match apply_steps NewAddress evm_Create now Fee tx coord
          (S (length (Stack ctx))) (ctx_Snapshot ctx).2 with
  | Return r ctx' => Return r (ctx_Revert (S (length (Stack ctx))) ctx')
  | Panic e ctx' =>
      Return (None, Some (recovered e)) (ctx_Revert (S (length (Stack ctx))) ctx')
  end.
Proof.
  unfold apply, recover_, defer_, ctx_Snapshot. cbn [snd].
  destruct (apply_steps _ _ _ _ _ _ _ _); reflexivity.
Qed.

(** X21: after the checks have passed, the outcome of the apply phase is
    decided by the virtual machine.  When it returns code without error
    (and left the opening checkpoint in place), the apply phase returns
    that code, keeps the working layer the machine left and closes the
    checkpoint; the deferred revert that runs after the commit changes
    nothing.  When it returns an error, that error is returned, the code
    is dropped and the context is the one of before the call. *)
Theorem apply_after_vm
    (NewAddress : Coordinate -> N -> bytes)
    (evm_Create : vm_Context -> StateDB -> vm_Config -> bytes -> bytes ->
                  string -> bytes -> N -> M (bytes * option error))
    (now : Z) (Fee : N) (tx : CreateContract) (coord : Coordinate)
    (fromAcc : Account) (code : bytes) (oerr : option error) (ctx ctx3 : Context) :
  Seq tx = uint64_succ (ctx_Seq (From tx) ctx) ->
  ctx_Account (From tx) ctx = Ok fromAcc ->
  (Fee <= acc_Balance fromAcc)%N ->
  ctx_IsExistAccount (NewAddress coord 0%N) ctx = Ok false ->
  ctx_IsExistAccountName (Name tx) ctx = Ok false ->
  evm_Create (apply_vctx now tx) {| Coord := coord |} apply_vmCfg
    (From tx) (NewAddress coord 0%N) (Name tx) (Code tx ++ Params tx) 0%N
    (before_vm Fee tx fromAcc ctx) = Return (code, oerr) ctx3 ->
  checkpoint_intact ctx ctx3 ->
  apply NewAddress evm_Create now Fee tx coord ctx =
  match oerr with
  | None => Return (Some code, None) {| Top := Top ctx3; Stack := Stack ctx |}
  | Some err => Return (None, Some err) ctx
  end.
Proof.
  intros Hseq Hacc Hfee Haddr Hname Hvm Hintact.
  rewrite apply_unfold.
  rewrite (apply_steps_reach_vm _ _ _ _ _ _ _ fromAcc ctx Hseq Hacc Hfee Haddr Hname).
  rewrite Hvm. destruct oerr as [err|].
  - f_equal. by apply (Revert_intact ctx ctx3).
  - rewrite (Commit_intact ctx ctx3 Hintact). f_equal.
    apply Revert_closed. cbn [Stack]. lia.
Qed.

Lemma apply_after_vm_witness :
  apply coord_address plain_vm 0 10%N tx0 coord0 ledger0 =
  Return (Some [Byte.xaa; Byte.xbb], None)
    {| Top := Top (outcome_ctx
                     (plain_vm (apply_vctx 0 tx0) {| Coord := coord0 |} apply_vmCfg
                        (From tx0) (coord_address coord0 0%N) (Name tx0)
                        (Code tx0 ++ Params tx0) 0%N
                        (before_vm 10%N tx0
                           {| Address_ := creator; Name_ := "creator";
                              Balance_ := 1000%N |} ledger0)));
       Stack := Stack ledger0 |}.
Proof.
  apply (apply_after_vm coord_address plain_vm 0 10%N tx0 coord0
           {| Address_ := creator; Name_ := "creator"; Balance_ := 1000%N |}
           [Byte.xaa; Byte.xbb] None ledger0).
  - vm_compute. reflexivity.
  - vm_compute. reflexivity.
  - simpl. lia.
  - vm_compute. reflexivity.
  - vm_compute. reflexivity.
  - vm_compute. reflexivity.
  - vm_compute. reflexivity.
Defined.

(** X22: a creator that is not registered, or that holds less than the
    fee, stops the apply phase before the virtual machine is called: the
    lookup's error, respectively the insufficient-balance error, is
    returned for every virtual machine, and the context is the one of
    before the call, so the increment of the sequence is undone. *)
Theorem apply_rejects_creator
    (NewAddress : Coordinate -> N -> bytes)
    (evm_Create : vm_Context -> StateDB -> vm_Config -> bytes -> bytes ->
                  string -> bytes -> N -> M (bytes * option error))
    (now : Z) (Fee : N) (tx : CreateContract) (coord : Coordinate) (ctx : Context) :
  Seq tx = uint64_succ (ctx_Seq (From tx) ctx) ->
  (forall err,
     ctx_Account (From tx) ctx = Err err ->
     apply NewAddress evm_Create now Fee tx coord ctx = Return (None, Some err) ctx) /\
  (forall fromAcc,
     ctx_Account (From tx) ctx = Ok fromAcc ->
     (acc_Balance fromAcc < Fee)%N ->
     apply NewAddress evm_Create now Fee tx coord ctx
     = Return (None, Some ErrInsufficientBalance) ctx).
Proof.
  intros Hseq. split.
  - intros err Hacc. rewrite apply_unfold.
    unfold apply_steps, bind, gets, modify, ret.
    rewrite Seq_Snapshot, <- Hseq, N.eqb_refl. cbn [negb].
    replace (ctx_Account (From tx) (ctx_AddSeq (From tx) (ctx_Snapshot ctx).2))
      with (ctx_Account (From tx) ctx) by reflexivity.
    rewrite Hacc. f_equal. by apply Revert_kept.
  - intros fromAcc Hacc Hlt. rewrite apply_unfold.
    unfold apply_steps, bind, gets, modify, ret.
    rewrite Seq_Snapshot, <- Hseq, N.eqb_refl. cbn [negb].
    replace (ctx_Account (From tx) (ctx_AddSeq (From tx) (ctx_Snapshot ctx).2))
      with (ctx_Account (From tx) ctx) by reflexivity.
    rewrite Hacc. unfold acc_SubBalance, Less.
    replace (Balance_ fromAcc <? Fee)%N with true
      by (symmetry; apply N.ltb_lt; exact Hlt).
    f_equal. by apply Revert_kept.
Qed.

Lemma apply_rejects_creator_witness :
  apply coord_address plain_vm 0 2000%N tx0 coord0 ledger0
  = Return (None, Some ErrInsufficientBalance) ledger0.
Proof.
  apply (proj2 (apply_rejects_creator coord_address plain_vm 0 2000%N tx0 coord0
                  ledger0 ltac:(vm_compute; reflexivity))
           {| Address_ := creator; Name_ := "creator"; Balance_ := 1000%N |}).
  - vm_compute. reflexivity.
  - simpl. lia.
Defined.

(** X23: with the creator able to pay, an account already registered at
    the derived address makes the apply phase return the exist-address
    error, and otherwise a registered account carrying the requested name
    makes it return the exist-name error; the address is checked first,
    the virtual machine is not called, and the context is the one of
    before the call (fee and sequence restored). *)
Theorem apply_rejects_collision
    (NewAddress : Coordinate -> N -> bytes)
    (evm_Create : vm_Context -> StateDB -> vm_Config -> bytes -> bytes ->
                  string -> bytes -> N -> M (bytes * option error))
    (now : Z) (Fee : N) (tx : CreateContract) (coord : Coordinate)
    (fromAcc : Account) (ctx : Context) :
  Seq tx = uint64_succ (ctx_Seq (From tx) ctx) ->
  ctx_Account (From tx) ctx = Ok fromAcc ->
  (Fee <= acc_Balance fromAcc)%N ->
  (is_Some (AccountMap (Top ctx) !! NewAddress coord 0%N) ->
   apply NewAddress evm_Create now Fee tx coord ctx
   = Return (None, Some ErrExistAddress) ctx) /\
  (AccountMap (Top ctx) !! NewAddress coord 0%N = None ->
   name_taken (Name tx) ctx ->
   apply NewAddress evm_Create now Fee tx coord ctx
   = Return (None, Some ErrExistAccountName) ctx).
Proof.
  intros Hseq Hacc Hfee.
  assert (Hsteps : forall r,
    (ctx_IsExistAccount (NewAddress coord 0%N) ctx = Ok true /\
       r = ErrExistAddress) \/
    (ctx_IsExistAccount (NewAddress coord 0%N) ctx = Ok false /\
       ctx_IsExistAccountName (Name tx) ctx = Ok true /\
       r = ErrExistAccountName) ->
    apply NewAddress evm_Create now Fee tx coord ctx = Return (None, Some r) ctx).
  { intros r Hcase. rewrite apply_unfold.
    pose proof (IsExistAccount_before_vm Fee tx fromAcc (NewAddress coord 0%N) ctx Hacc) as Ha.
    pose proof (IsExistAccountName_before_vm Fee tx fromAcc (Name tx) ctx Hacc) as Hn.
    unfold apply_steps, bind, gets, modify, ret.
    rewrite Seq_Snapshot, <- Hseq, N.eqb_refl. cbn [negb].
    replace (ctx_Account (From tx) (ctx_AddSeq (From tx) (ctx_Snapshot ctx).2))
      with (ctx_Account (From tx) ctx) by reflexivity.
    rewrite Hacc. unfold acc_SubBalance, Less.
    replace (Balance_ fromAcc <? Fee)%N with false
      by (symmetry; apply N.ltb_ge; exact Hfee).
    fold (before_vm Fee tx fromAcc ctx). rewrite Ha.
    destruct Hcase as [[Hex ->]|(Hex & Hnm & ->)]; rewrite Hex.
    - f_equal. apply Revert_kept, before_vm_Stack.
    - rewrite Hn, Hnm. f_equal. apply Revert_kept, before_vm_Stack. }
  split.
  - intros Hsome. apply Hsteps. left. split; [|reflexivity].
    unfold ctx_IsExistAccount. by rewrite bool_decide_eq_true_2.
  - intros Hnone Htaken. apply Hsteps. right. split; [|split; [|reflexivity]].
    + unfold ctx_IsExistAccount. rewrite Hnone.
      rewrite bool_decide_eq_false_2; [reflexivity|]. by intros [? ?].
    + destruct (ctx_IsExistAccountName (Name tx) ctx) as [b|] eqn:Hb; [|discriminate].
      f_equal. by apply (IsExistAccountName_true (Name tx) ctx b Hb).
Qed.

Lemma apply_rejects_collision_witness :
  apply coord_address plain_vm 0 10%N
    {| tx_Base := tx_Base tx0; Seq_ := 1; From_ := creator; Name := "payee";
       Code := Code tx0; Params := [] |} coord0 ledger0
  = Return (None, Some ErrExistAccountName) ledger0.
Proof.
  apply (proj2 (apply_rejects_collision coord_address plain_vm 0 10%N
                  {| tx_Base := tx_Base tx0; Seq_ := 1; From_ := creator;
                     Name := "payee"; Code := Code tx0; Params := [] |} coord0
                  {| Address_ := creator; Name_ := "creator"; Balance_ := 1000%N |}
                  ledger0
                  ltac:(vm_compute; reflexivity) ltac:(vm_compute; reflexivity)
                  ltac:(simpl; lia))).
  - vm_compute. reflexivity.
  - exists payee, {| Address_ := payee; Name_ := "payee"; Balance_ := 5%N |}.
    split; vm_compute; reflexivity.
Defined.

(** X24: all or nothing.  With a virtual machine that consumes only
    checkpoints of its own, the apply phase either returns code and no
    error, with the open checkpoints as before the call, or returns an
    error and no code, with the whole context as before the call. *)
Theorem apply_all_or_nothing
    (NewAddress : Coordinate -> N -> bytes)
    (evm_Create : vm_Context -> StateDB -> vm_Config -> bytes -> bytes ->
                  string -> bytes -> N -> M (bytes * option error))
    (now : Z) (Fee : N) (tx : CreateContract) (coord : Coordinate) (ctx : Context) :
  vm_keeps_checkpoints evm_Create ->
  (exists code ctx',
     apply NewAddress evm_Create now Fee tx coord ctx = Return (Some code, None) ctx' /\
     Stack ctx' = Stack ctx) \/
  (exists err,
     apply NewAddress evm_Create now Fee tx coord ctx = Return (None, Some err) ctx).
Proof.
  intros Hvm. rewrite apply_unfold.
  unfold apply_steps, bind, gets, modify, ret.
  destruct (negb _); [right; eexists; f_equal; by apply Revert_kept|].
  destruct (ctx_Account _ _) as [fromAcc|];
    [|right; eexists; f_equal; by apply Revert_kept].
  destruct (acc_SubBalance fromAcc Fee) as [fromAcc'|];
    [|right; eexists; f_equal; by apply Revert_kept].
  destruct (ctx_IsExistAccount _ _) as [[|]|];
    try (right; eexists; f_equal; by apply Revert_kept).
  destruct (ctx_IsExistAccountName _ _) as [[|]|];
    try (right; eexists; f_equal; by apply Revert_kept).
  match goal with
  | |- context [evm_Create ?v ?sd ?cfg ?a ?b ?n ?c ?z ?x] =>
      pose proof (Hvm now tx sd cfg a b n c z x) as Hkept;
      unfold apply_vctx in Hkept;
      destruct (evm_Create v sd cfg a b n c z x) as [[code [err|]] ctx3|e ctx3]
  end; cbn [outcome_ctx Stack length ctx_Snapshot snd ctx_store ctx_AddSeq with_top] in Hkept.
  - right. eexists. f_equal. by apply (Revert_intact ctx ctx3).
  - left. do 2 eexists. rewrite (Commit_intact ctx ctx3) by exact Hkept.
    rewrite Revert_closed by (cbn [Stack]; lia). split; reflexivity.
  - right. eexists. f_equal. by apply (Revert_intact ctx ctx3).
Qed.

Lemma plain_vm_keeps_checkpoints : vm_keeps_checkpoints plain_vm.
Proof.
  intros now tx sd cfg caller addr name code value ctx. cbn zeta.
  assert (Hk : keeps_stack
                 (plain_vm (apply_vctx now tx) sd cfg caller addr name code value)).
  { unfold plain_vm. cbn [vc_Transfer apply_vctx].
    apply keeps_stack_bind; [apply CreateAccount_keeps_stack|intros _].
    apply keeps_stack_bind; [apply Transfer_keeps_stack|intros _].
    apply keeps_stack_bind; [apply SetCode_keeps_stack|intros _].
    apply keeps_stack_ret. }
  rewrite (Hk ctx), Nat.sub_diag. reflexivity.
Qed.

Lemma apply_all_or_nothing_witness :
  (exists code ctx',
     apply coord_address plain_vm 0 10%N tx0 coord0 ledger0
     = Return (Some code, None) ctx' /\
     Stack ctx' = Stack ledger0) \/
  (exists err,
     apply coord_address plain_vm 0 10%N tx0 coord0 ledger0
     = Return (None, Some err) ledger0).
Proof.
  apply (apply_all_or_nothing coord_address plain_vm 0 10%N tx0 coord0 ledger0).
  exact plain_vm_keeps_checkpoints.
Defined.

(** * Further properties of the encodings *)

Lemma write_step_appends {A} (W : Wire A) (a : A) (w : bytes) :
  write_step W a w =
  match write_step W a [] with
  | Ok (n, bs) => Ok (n, w ++ bs)
  | Err e => Err e
  end.
Proof. unfold write_step. by destruct (wire_write W a). Qed.


(** What was written is read back (the steps of the round trip). *)
Lemma WriteTo_read_back
    (wBase : Wire Base) (wUint64 : Wire N) (wAddress : Wire (list Byte.byte))
    (wString : Wire string) (wBytes : Wire (list Byte.byte))
    (tx tx' : CreateContract) (bs : bytes) (n : Z) :
  wire_ok wBase -> wire_ok wUint64 -> wire_ok wAddress ->
  wire_ok wString -> wire_ok wBytes ->
  WriteTo wBase wUint64 wAddress wString wBytes tx [] = ((n, None), bs) ->
  ReadFrom wBase wUint64 wAddress wString wBytes tx' bs = ((tx, n, None), []).
Proof.
  intros HB HU HA HS HY. unfold WriteTo, write_step.
  destruct (wire_write wBase (tx_Base tx)) as [b1|] eqn:E1; [|discriminate].
  destruct (wire_write wUint64 (Seq_ tx)) as [b2|] eqn:E2; [|discriminate].
  destruct (wire_write wAddress (From_ tx)) as [b3|] eqn:E3; [|discriminate].
  destruct (wire_write wString (Name tx)) as [b4|] eqn:E4; [|discriminate].
  destruct (wire_write wBytes (Code tx)) as [b5|] eqn:E5; [|discriminate].
  destruct (wire_write wBytes (Params tx)) as [b6|] eqn:E6; [|discriminate].
  intros [= <- <-]. cbn [app].
  rewrite <- (app_nil_r (((((b1 ++ b2) ++ b3) ++ b4) ++ b5) ++ b6)).
  unfold ReadFrom. rewrite <- !app_assoc.
  rewrite (read_step_written wBase _ _ _ HB E1).
  rewrite (read_step_written wUint64 _ _ _ HU E2).
  rewrite (read_step_written wAddress _ _ _ HA E3).
  rewrite (read_step_written wString _ _ _ HS E4).
  rewrite (read_step_written wBytes _ _ _ HY E5).
  rewrite (read_step_written wBytes _ _ _ HY E6).
  cbn [tx_Base Seq_ From_ Name Code Params]. destruct tx. reflexivity.
Qed.

(** X26: with wire helpers that read back what they write, the encoding
    is injective: two different transactions are never encoded by
    [WriteTo] to the same bytes. *)
Theorem WriteTo_injective
    (wBase : Wire Base) (wUint64 : Wire N) (wAddress : Wire (list Byte.byte))
    (wString : Wire string) (wBytes : Wire (list Byte.byte))
    (tx1 tx2 : CreateContract) (bs1 bs2 : bytes) (n1 n2 : Z) :
  wire_ok wBase -> wire_ok wUint64 -> wire_ok wAddress ->
  wire_ok wString -> wire_ok wBytes ->
  WriteTo wBase wUint64 wAddress wString wBytes tx1 [] = ((n1, None), bs1) ->
  WriteTo wBase wUint64 wAddress wString wBytes tx2 [] = ((n2, None), bs2) ->
  tx1 <> tx2 ->
  bs1 <> bs2.
Proof.
  intros HB HU HA HS HY H1 H2 Hne Heq. subst bs2. apply Hne.
  pose proof (WriteTo_read_back _ _ _ _ _ tx1 tx1 bs1 n1 HB HU HA HS HY H1) as R1.
  pose proof (WriteTo_read_back _ _ _ _ _ tx2 tx1 bs1 n2 HB HU HA HS HY H2) as R2.
  congruence.
Qed.

Lemma WriteTo_injective_witness :
  (WriteTo base_wire (uint_wire 8) address_wire string_wire bytes_wire tx0 []).2
  <> (WriteTo base_wire (uint_wire 8) address_wire string_wire bytes_wire
        {| tx_Base := tx_Base tx0; Seq_ := 2; From_ := creator; Name := "Foo";
           Code := Code tx0; Params := [] |} []).2.
Proof.
  apply (WriteTo_injective base_wire (uint_wire 8) address_wire string_wire
           bytes_wire tx0
           {| tx_Base := tx_Base tx0; Seq_ := 2; From_ := creator; Name := "Foo";
              Code := Code tx0; Params := [] |} _ _ 45 45
           base_wire_ok (uint_wire_ok 8) (fixed_wire_ok 20) string_wire_ok
           bytes_wire_ok).
  - vm_compute. reflexivity.
  - vm_compute. reflexivity.
  - discriminate.
Defined.





(** X29: [MarshalJSON] never writes the contract name.  Two
    transactions that differ only in their name are told apart by the wire
    encoding (with helpers that read back what they write), but their JSON
    is the same, or fails with the same error, whatever the marshallers of
    the type tag and of the address do. *)
Theorem MarshalJSON_ignores_Name
    (wBase : Wire Base) (wUint64 : Wire N) (wAddress : Wire (list Byte.byte))
    (wString : Wire string) (wBytes : Wire (list Byte.byte))
    (json_Type : N -> result string) (Address_MarshalJSON : bytes -> result string)
    (tx : CreateContract) (name : string) (bs1 bs2 : bytes) (n1 n2 : Z) :
  let tx' := {| tx_Base := tx_Base tx; Seq_ := Seq_ tx; From_ := From_ tx;
                Name := name; Code := Code tx; Params := Params tx |} in
  wire_ok wBase -> wire_ok wUint64 -> wire_ok wAddress ->
  wire_ok wString -> wire_ok wBytes ->
  name <> Name tx ->
  WriteTo wBase wUint64 wAddress wString wBytes tx [] = ((n1, None), bs1) ->
  WriteTo wBase wUint64 wAddress wString wBytes tx' [] = ((n2, None), bs2) ->
  bs1 <> bs2 /\
  MarshalJSON json_Type Address_MarshalJSON tx'
  = MarshalJSON json_Type Address_MarshalJSON tx.
Proof.
  intros tx' HB HU HA HS HY Hname H1 H2. split; [|reflexivity].
  intros Heq. subst bs2.
  pose proof (WriteTo_read_back _ _ _ _ _ tx tx bs1 n1 HB HU HA HS HY H1) as R1.
  pose proof (WriteTo_read_back _ _ _ _ _ tx' tx bs1 n2 HB HU HA HS HY H2) as R2.
  rewrite R1 in R2. injection R2 as Htx _. apply Hname.
  apply (f_equal Name) in Htx. by symmetry.
Qed.

Lemma MarshalJSON_ignores_Name_witness :
  (WriteTo base_wire (uint_wire 8) address_wire string_wire bytes_wire tx0 []).2
  <> (WriteTo base_wire (uint_wire 8) address_wire string_wire bytes_wire
        {| tx_Base := tx_Base tx0; Seq_ := Seq_ tx0; From_ := From_ tx0;
           Name := "Bar"; Code := Code tx0; Params := Params tx0 |} []).2 /\
  MarshalJSON decimal_type hex_address
    {| tx_Base := tx_Base tx0; Seq_ := Seq_ tx0; From_ := From_ tx0;
       Name := "Bar"; Code := Code tx0; Params := Params tx0 |}
  = MarshalJSON decimal_type hex_address tx0.
Proof.
  apply (MarshalJSON_ignores_Name base_wire (uint_wire 8) address_wire
           string_wire bytes_wire decimal_type hex_address tx0 "Bar" _ _ 45 45
           base_wire_ok (uint_wire_ok 8) (fixed_wire_ok 20) string_wire_ok
           bytes_wire_ok).
  - discriminate.
  - vm_compute. reflexivity.
  - vm_compute. reflexivity.
Defined.

Lemma hex_char_inj (m n : N) :
  (m < 16)%N -> (n < 16)%N -> hex_char m = hex_char n -> m = n.
Proof.
  intros Hm Hn. rewrite <- (N2Nat.id m), <- (N2Nat.id n).
  assert (Hj : (N.to_nat m < 16)%nat) by lia.
  assert (Hk : (N.to_nat n < 16)%nat) by lia.
  revert Hj Hk. generalize (N.to_nat m) (N.to_nat n). clear. intros j k Hj Hk.
  do 16 (destruct j as [|j];
         [do 16 (destruct k as [|k];
                 [vm_compute; intros H; first [reflexivity | discriminate H]|]);
          lia|]).
  lia.
Qed.

Lemma nibbles_inj (a b : N) :
  N.shiftr a 4 = N.shiftr b 4 -> N.land a 15 = N.land b 15 -> a = b.
Proof.
  rewrite !N.shiftr_div_pow2. change 15%N with (N.ones 4). rewrite !N.land_ones.
  change (2 ^ 4)%N with 16%N. intros Hd Hm.
  rewrite (N.div_mod a 16), (N.div_mod b 16) by lia. congruence.
Qed.

Lemma hex_EncodeToString_inj (c1 c2 : bytes) :
  hex_EncodeToString c1 = hex_EncodeToString c2 -> c1 = c2.
Proof.
  revert c2. induction c1 as [|v1 c1 IH]; intros [|v2 c2]; cbn; try discriminate.
  - reflexivity.
  - intros [= Hhi Hlo Hrest].
    pose proof (Byte.to_N_bounded v1). pose proof (Byte.to_N_bounded v2).
    apply hex_char_inj in Hhi;
      [|rewrite N.shiftr_div_pow2; apply N.Div0.div_lt_upper_bound;
        change (2 ^ 4 * 16)%N with 256%N; lia..].
    apply hex_char_inj in Hlo;
      [|change 15%N with (N.ones 4); rewrite N.land_ones; apply N.mod_lt; lia..].
    f_equal; [|by apply IH].
    pose proof (nibbles_inj _ _ Hhi Hlo) as Hv.
    pose proof (Byte.of_to_N v1) as E1. pose proof (Byte.of_to_N v2) as E2.
    congruence.
Qed.

Lemma string_length_append (s t : string) :
  String.length (s +:+ t) = (String.length s + String.length t)%nat.
Proof.
  induction s as [|a s IH]; [reflexivity|].
  change (String a s +:+ t) with (String a (s +:+ t)).
  cbn [String.length]. by rewrite IH.
Qed.

Lemma append_inj_r (s1 s2 t : string) : s1 +:+ t = s2 +:+ t -> s1 = s2.
Proof.
  revert s2. induction s1 as [|a s1 IH]; intros [|b s2].
  - reflexivity.
  - intros H. apply (f_equal String.length) in H.
    rewrite !string_length_append in H. cbn [String.length] in H. lia.
  - intros H. apply (f_equal String.length) in H.
    rewrite !string_length_append in H. cbn [String.length] in H. lia.
  - change (String a s1 +:+ t) with (String a (s1 +:+ t)).
    change (String b s2 +:+ t) with (String b (s2 +:+ t)).
    intros [= -> H]. f_equal. by apply IH.
Qed.

Lemma string_cons_inj (a : Ascii.ascii) (s t : string) :
  String a s = String a t -> s = t.
Proof. by intros [=]. Qed.

Lemma json_bytes_eq (c1 c2 : bytes) :
  json_bytes c1 = json_bytes c2 -> c1 = c2.
Proof.
  unfold json_bytes.
  destruct c1 as [|v1 c1], c2 as [|v2 c2]; cbn [length Nat.eqb].
  - reflexivity.
  - vm_compute. discriminate.
  - vm_compute. discriminate.
  - unfold dquote.
    change (String ?c EmptyString +:+ ?s) with (String c s).
    intros H. apply string_cons_inj, append_inj_r in H.
    by apply hex_EncodeToString_inj.
Qed.

(** X30: the rendering [MarshalJSON] gives to the code and to the
    parameters loses nothing: two different byte strings are never
    rendered alike ([null] stands for the empty one only, and the quoted
    lower-case hex digits determine the bytes). *)
Theorem json_bytes_inj (c1 c2 : bytes) :
  c1 <> c2 -> json_bytes c1 <> json_bytes c2.
Proof. intros Hne Heq. by apply Hne, json_bytes_eq. Qed.

Lemma json_bytes_inj_witness :
  json_bytes [Byte.xaa; Byte.xbb] <> json_bytes [Byte.xaa; Byte.xbc].
Proof. apply json_bytes_inj. discriminate. Defined.
